(** * Hindi predictive typing: the suggestion pipeline of [NLP/trial.py]

    A shallow embedding of the helper functions of the demo
    ([clean_suggestion], [extract_suggestions], [generate_predictions],
    [should_predict]), of the call site that guards generation and of the
    suggestion button handler, followed by the properties the specification
    states about them. The model loader, the session state, the other
    buttons, the history panel and the sentence statistics are embedded as
    well, with the properties their code shows.

    Python [str] values are sequences of Unicode code points, so a string
    is a [list Z] of code points; [len], slicing and [in] then have their
    Python meaning on Devanagari text. *)

From Stdlib Require Import ZArith Ascii String.
From stdpp Require Import base list gmap sets.

Local Open Scope Z_scope.

(** ** Strings *)

Abbreviation str := (list Z).

Module Utf8.

(** The source file is UTF-8; [decode] turns the bytes of a literal into
    the code points Python sees. [need] counts the continuation bytes
    still expected and [acc] holds the bits read so far. *)
Fixpoint decode (bs : list Z) (acc : Z) (need : nat) : str :=
  match bs with
  | [] => []
  | b :: rest =>
      match need with
      | O =>
          if b <? 0x80 then b :: decode rest 0 O
          else if b <? 0xE0 then decode rest (Z.land b 0x1F) 1%nat
          else if b <? 0xF0 then decode rest (Z.land b 0x0F) 2%nat
          else decode rest (Z.land b 0x07) 3%nat
      | S O => Z.lor (Z.shiftl acc 6) (Z.land b 0x3F) :: decode rest 0 O
      | S n => decode rest (Z.lor (Z.shiftl acc 6) (Z.land b 0x3F)) n
      end
  end.

Definition bytes (s : string) : list Z :=
  map (fun a => Z.of_N (N_of_ascii a)) (list_ascii_of_string s).

End Utf8.

(** [U "..."] is the Python string written between the quotes. *)
Definition U (s : string) : str := Utf8.decode (Utf8.bytes s) 0 O.

(** ** Settings *)

Definition MAX_NEW_TOKENS : nat := 12.
Definition N_SUGGESTIONS : nat := 4.

(** ** The [str] methods the program uses *)

(** [str.isspace] on one code point: the characters [str.strip()] and
    [str.split()] treat as whitespace. *)
Definition isspace (c : Z) : bool :=
  ((0x09 <=? c) && (c <=? 0x0D)) || ((0x1C <=? c) && (c <=? 0x20))
  || (c =? 0x85) || (c =? 0xA0) || (c =? 0x1680)
  || ((0x2000 <=? c) && (c <=? 0x200A))
  || (c =? 0x2028) || (c =? 0x2029) || (c =? 0x202F) || (c =? 0x205F)
  || (c =? 0x3000).

(** Remove the longest prefix of characters satisfying [p]. *)
Fixpoint drop_leading (p : Z → bool) (s : str) : str :=
  match s with
  | [] => []
  | c :: rest => if p c then drop_leading p rest else s
  end.

(** Remove the longest suffix of characters satisfying [p]: scanning from
    the left, the first position from which everything satisfies [p] is
    where the result ends. *)
Fixpoint drop_trailing (p : Z → bool) (s : str) : str :=
  match s with
  | [] => []
  | c :: rest => if forallb p s then [] else c :: drop_trailing p rest
  end.

(** [s.strip()] *)
Definition strip (s : str) : str :=
  drop_trailing isspace (drop_leading isspace s).

(** [s.split()]: maximal runs of non-whitespace characters. [cur] is the
    word being read, reversed. *)
Fixpoint split_from (cur : str) (s : str) : list str :=
  match s with
  | [] => match cur with [] => [] | _ => [reverse cur] end
  | c :: rest =>
      if isspace c
      then match cur with
           | [] => split_from [] rest
           | _ => reverse cur :: split_from [] rest
           end
      else split_from (c :: cur) rest
  end.

Definition split (s : str) : list str := split_from [] s.

(** [sep.join(words)] *)
Fixpoint join (sep : str) (words : list str) : str :=
  match words with
  | [] => []
  | [w] => w
  | w :: rest => w ++ sep ++ join sep rest
  end.

(** [s.endswith(suffix)] *)
Definition endswith (s suffix : str) : bool :=
  bool_decide (suffix `suffix_of` s).

(** [s.startswith(prefix)] at the head of [s]. *)
Fixpoint starts_with (prefix s : str) : bool :=
  match prefix, s with
  | [], _ => true
  | _, [] => false
  | a :: prefix', b :: s' => (a =? b) && starts_with prefix' s'
  end.

(** [sub in s] for strings: [sub] occurs in [s] as a contiguous run. *)
Fixpoint contains (s sub : str) : bool :=
  starts_with sub s ||
  match s with
  | [] => false
  | _ :: rest => contains rest sub
  end.

(** [xs[-n:]] *)
Definition last_n {A} (n : nat) (xs : list A) : list A :=
  drop (length xs - n) xs.

(** ** Character classes of the regular expressions *)

Definition in_range (lo hi c : Z) : bool := (lo <=? c) && (c <=? hi).

Definition devanagari (c : Z) : bool := in_range 0x0900 0x097F c.
Definition latin (c : Z) : bool := in_range 97 122 c || in_range 65 90 c.
Definition ascii_digit (c : Z) : bool := in_range 48 57 c.

(** U+0964 DEVANAGARI DANDA, the Hindi full stop. *)
Definition danda : Z := 0x0964.

(** The class [\u0900-\u097Fa-zA-Z0-9]. *)
Definition head_class (c : Z) : bool := devanagari c || latin c || ascii_digit c.
(** The class [\u0900-\u097Fa-zA-Z0-9।]. *)
Definition tail_class (c : Z) : bool := head_class c || (c =? danda).
(** The class [\u0900-\u097Fa-zA-Z]. *)
Definition letter_class (c : Z) : bool := devanagari c || latin c.

(** [re.sub(r'^[^H]+|[^T]+$', '', s)] with [H] = [head_class] and [T] =
    [tail_class]. The first alternative can only match at position 0 and
    takes the whole leading run outside [H]. From where it stops, the scan
    moves right one character at a time; the second alternative matches at
    a position exactly when every character from there to the end is
    outside [T] (a newline is outside [T] too, so [$] can only succeed at
    the very end), and then the rest of the string is deleted. *)
Definition re_sub_ends (s : str) : str :=
  drop_trailing (λ c, negb (tail_class c))
    (drop_leading (λ c, negb (head_class c)) s).

(** [re.search(r'[\u0900-\u097Fa-zA-Z]', s)] as a truth value. *)
Definition re_search_letter (s : str) : bool := existsb letter_class s.

(** Python truthiness of a string or a list. *)
Definition truthy {A} (l : list A) : bool :=
  match l with [] => false | _ => true end.

(** ** Helper functions of the program *)

Definition clean_suggestion (text : str) : str :=
  if negb (truthy text) then []
  else
    let cleaned := strip text in
    let cleaned := re_sub_ends cleaned in
    if negb (re_search_letter cleaned) then []
    else if (length cleaned <? 2)%nat then []
    else cleaned.

(** One turn of the loop of [extract_suggestions]. *)
Definition extract_step (suggestions : list str) (word : str) : list str :=
  let cleaned := clean_suggestion word in
  if truthy cleaned && negb (bool_decide (cleaned ∈ suggestions))
  then suggestions ++ [cleaned]
  else suggestions.

Definition extract_suggestions (generated_text original_text : str) : list str :=
  if negb (truthy generated_text)
     || (length generated_text <=? length original_text)%nat
  then []
  else
    let new_part := strip (drop (length original_text) generated_text) in
    if negb (truthy new_part) then []
    else
      let words := split new_part in
      let suggestions := foldl extract_step [] (take 6 words) in
      take N_SUGGESTIONS suggestions.

(** ** Effects: the model service and the page

    Running the pipeline may call the generative model and may show an
    error box with [st.error]. Both are recorded, in order, in a trace;
    a computation ends by returning a value or by raising. *)

Inductive outcome (A : Type) : Type :=
  | Ok (a : A)
  | Raised (e : str).
Arguments Ok {A} a.
Arguments Raised {A} e.

Inductive event : Type :=
  | ModelCall (prompt : str) (num_return_sequences max_new_tokens : nat)
  | StError (message : str).

Definition M (A : Type) : Type := (list event * outcome A)%type.

Global Instance M_ret : MRet M := λ A a, ([], Ok a).

Global Instance M_bind : MBind M := λ A B k m,
  match m with
  | (tr, Ok a) => let '(tr', r) := k a in (tr ++ tr', r)
  | (tr, Raised e) => (tr, Raised e)
  end.

(** [try: body except Exception as e: handler e] *)
Definition try_except {A} (body : M A) (handler : str → M A) : M A :=
  match body with
  | (tr, Ok a) => (tr, Ok a)
  | (tr, Raised e) => let '(tr', r) := handler e in (tr ++ tr', r)
  end.

(** A loaded text-generation pipeline: given the prompt it returns the
    [generated_text] of each sampled sequence, or raises; [str(e)] is what
    [Raised] carries. *)
Definition model : Type := str → outcome (list str).

Definition call_model (generator : model) (context : str) : M (list str) :=
  ([ModelCall context (N_SUGGESTIONS + 2) MAX_NEW_TOKENS], generator context).

Definition generation_problem : str := U "सुझाव बनाने में समस्या: ".

Definition st_error (message : str) : M unit := ([StError message], Ok tt).

(** The prompts sent to the model and the messages shown, read off a
    trace. *)
Definition prompts (tr : list event) : list str :=
  omap (λ ev, match ev with ModelCall c _ _ => Some c | _ => None end) tr.

Definition errors_shown (tr : list event) : list str :=
  omap (λ ev, match ev with StError m => Some m | _ => None end) tr.

Section Pipeline.

(** [str.lower]; the Unicode case tables are not part of the program. *)
Variable lower : str → str.

(** The model handle [generator]: [None] when loading failed. *)
Variable generator : option model.

(** The prompt: the last six words, or the whole stripped text. *)
Definition context_of (text : str) : str :=
  let words := split (strip text) in
  if (6 <? length words)%nat then join (U " ") (last_n 6 words)
  else strip text.

(** The first loop of [generate_predictions]: [all_suggestions]. *)
Definition collect (results : list str) (context : str) : list str :=
  foldl (λ all_suggestions generated_text,
           all_suggestions ++ extract_suggestions generated_text context)
        [] results.

(** One turn of the second loop, on [(unique_suggestions, seen)]. *)
Definition filter_step (text : str) (st : list str * gset str)
    (suggestion : str) : list str * gset str :=
  let '(unique_suggestions, seen) := st in
  if truthy suggestion
     && negb (bool_decide (lower suggestion ∈ seen))
     && negb (contains text suggestion)
     && (2 <=? length suggestion)%nat
  then (unique_suggestions ++ [suggestion], {[lower suggestion]} ∪ seen)
  else (unique_suggestions, seen).

Definition unique_of (text : str) (all_suggestions : list str) : list str :=
  (foldl (filter_step text) ([], ∅) all_suggestions).1.

Definition generate_predictions (text : str) : M (list str) :=
  match generator with
  | None => mret []
  | Some g =>
      if negb (truthy text) then mret []
      else
        try_except
          (let context := context_of text in
           results ← call_model g context;
           let all_suggestions := collect results context in
           let unique_suggestions := unique_of text all_suggestions in
           mret (take N_SUGGESTIONS unique_suggestions))
          (λ e, st_error (generation_problem ++ e);; mret [])
  end.

Definition terminators : list str := [U "।"; U "."; U "!"; U "?"].

Definition should_predict (text : str) : bool :=
  if negb (truthy text) || (length (strip text) <? 1)%nat then false
  else if existsb (endswith (strip text)) terminators then false
  else true.

(** The call site: suggestions are generated only when [should_predict]
    holds and the model is loaded; otherwise nothing is offered. *)
Definition predict (text : str) : M (list str) :=
  if should_predict text && bool_decide (is_Some generator)
  then generate_predictions text
  else mret [].

End Pipeline.

(** The suggestion button handler: the new value of [user_text]. *)
Definition accept (user_text suggestion : str) : str :=
  let current_text := strip user_text in
  if negb (truthy current_text) then suggestion
  else if endswith current_text (U " ") then current_text ++ suggestion
  else current_text ++ U " " ++ suggestion.

(** [str.lower] on text whose only cased letters are ASCII, as in a
    Devanagari message with Latin words. *)
Definition ascii_lower (s : str) : str :=
  map (λ c, if in_range 65 90 c then c + 32 else c) s.

(** ** Sample models *)

(** A model that answers every prompt with the same three continuations. *)
Definition demo_model : model :=
  λ context, Ok [context ++ U " अच्छा है। और"; context ++ U " Accha अच्छा accha";
                 context ++ U " बहुत"].

(** A model whose generation call raises. *)
Definition failing_model : model := λ _, Raised (U "CUDA out of memory").

(** A model whose continuation holds two dandas and a number in
    Devanagari digits. *)
Definition danda_model : model := λ context, Ok [context ++ U " ।। १२ है"].

(** ** Notions used in the statements *)

(** [s] does not begin, or does not end, with a character satisfying [p]. *)
Definition starts_clear (p : Z → bool) (s : str) : Prop :=
  match s with [] => True | c :: _ => p c = false end.

Definition ends_clear (p : Z → bool) (s : str) : Prop :=
  match last s with None => True | Some c => p c = false end.

(** [sub] occurs in [s]: some text, then [sub], then some text. *)
Definition occurs_in (sub s : str) : Prop := ∃ pre post, s = pre ++ sub ++ post.

(** What holds of [(unique_suggestions, seen)] throughout the second loop
    of [generate_predictions] over [all_suggestions]. *)
Definition filter_inv (lower : str → str) (text : str)
    (all_suggestions : list str) (st : list str * gset str) : Prop :=
  (∀ k, k ∈ st.2 ↔ k ∈ lower <$> st.1) ∧
  NoDup (lower <$> st.1) ∧
  Forall (λ s, contains text s = false ∧ (2 ≤ length s)%nat ∧ s ∈ all_suggestions)
         st.1.

(** The tokens of one continuation: what follows the context is trimmed
    and split, the first six words are cleaned and the discarded ones
    (empty results) are left out. *)
Definition cleaned_tokens (context generated_text : str) : list str :=
  if (length generated_text <=? length context)%nat then []
  else
    filter (λ t : str, t ≠ [])
      (clean_suggestion <$>
         take 6 (split (strip (drop (length context) generated_text)))).

(** Keep a token only if its key has not been seen before in this pass;
    the order is that of first appearance. *)
Fixpoint keep_unseen (key : str → str) (seen : list str) (tokens : list str) : list str :=
  match tokens with
  | [] => []
  | t :: rest =>
      if bool_decide (key t ∈ seen) then keep_unseen key seen rest
      else t :: keep_unseen key (key t :: seen) rest
  end.

(** The aggregation step in the words of the specification: one pass over
    the cleaned tokens of all continuations, keeping a token only if it
    has not been seen case-insensitively. *)
Definition candidates_as_specified (lower : str → str) (context : str)
    (results : list str) : list str :=
  keep_unseen lower [] (concat (cleaned_tokens context <$> results)).

Definition devanagari_digit (c : Z) : bool := in_range 0x0966 0x096F c.

(** Danda, double danda and the abbreviation sign. *)
Definition devanagari_punctuation (c : Z) : bool :=
  in_range 0x0964 0x0965 c || (c =? 0x0970).

(** An alphabetic character in the widest reading: a Latin letter, or a
    character of the Devanagari block that is neither a digit nor a
    punctuation mark. *)
Definition alphabetic (c : Z) : bool :=
  latin c ||
  (devanagari c && negb (devanagari_digit c) && negb (devanagari_punctuation c)).

(** ** The rest of the page: loading, session state and buttons *)

Definition load_problem : str := U "❌ मॉडल लोड नहीं हो सका: ".

(** [load_hindi_model]; [pipeline] is how the construction of the
    text-generation pipeline ends. The result is the global [generator]. *)
Definition load_hindi_model (pipeline : outcome model) : M (option model) :=
  try_except
    (m ← (([], pipeline) : M model); mret (Some m))
    (λ e, st_error (load_problem ++ e);; mret None).

(** [st.session_state] *)
Record session : Type := Session {
  user_text : str;
  suggestion_history : list str;
  word_count : nat
}.

Definition initial_session : session := Session [] [] 0.

(** The text input: the state changes only when the typed text differs. *)
Definition on_input (st : session) (user_input : str) : session :=
  if bool_decide (user_input ≠ user_text st)
  then Session user_input (suggestion_history st)
         (if truthy user_input then length (split user_input) else 0%nat)
  else st.

(** A suggestion button. *)
Definition on_suggestion (st : session) (suggestion : str) : session :=
  Session (accept (user_text st) suggestion)
          (suggestion_history st ++ [suggestion])
          (word_count st).

(** The clear button. *)
Definition on_clear (st : session) : session :=
  Session [] [] (word_count st).

(** The full stop button, on [user_text]. *)
Definition full_stop (user_text : str) : str :=
  if truthy user_text && negb (endswith user_text (U "।"))
  then user_text ++ U "। "
  else user_text.

(** The previous word button, on [user_text]; [words.pop()] drops the
    last word. *)
Definition undo_last_word (user_text : str) : str :=
  let words := split (strip user_text) in
  if truthy words then
    let words := take (length words - 1) words in
    join (U " ") words ++ (if truthy words then U " " else U "")
  else user_text.

Definition on_full_stop (st : session) : session :=
  Session (full_stop (user_text st)) (suggestion_history st) (word_count st).

Definition on_undo (st : session) : session :=
  Session (undo_last_word (user_text st)) (suggestion_history st) (word_count st).

(** The badges of the history panel: [reversed(history[-10:])]. *)
Definition shown_history (history : list str) : list str :=
  reverse (last_n 10 history).

(** The class [।.!?] of the sentence pattern. *)
Definition is_terminator (c : Z) : bool :=
  (c =? danda) || (c =? 46) || (c =? 33) || (c =? 63).

(** [re.split(r'[।.!?]+', s)]: the pieces between maximal runs of
    terminators, the piece before a leading run and after a trailing run
    included (they are empty). [cur] is the piece being read, reversed;
    [in_run] tells that the previous character was a terminator. *)
Fixpoint re_split_from (cur : str) (in_run : bool) (s : str) : list str :=
  match s with
  | [] => [reverse cur]
  | c :: rest =>
      if is_terminator c
      then if in_run then re_split_from [] true rest
           else reverse cur :: re_split_from [] true rest
      else re_split_from (c :: cur) false rest
  end.

Definition re_split_terminators (s : str) : list str := re_split_from [] false s.

(** The sentence metric: [len([s for s in re.split(...) if s.strip()])]. *)
Definition sentence_count (text : str) : nat :=
  length (filter (λ s : str, strip s ≠ []) (re_split_terminators text)).

(** The sentence list of the analysis panel:
    [[s.strip() for s in re.split(...) if s.strip()]]. *)
Definition sentences (text : str) : list str :=
  strip <$> filter (λ s : str, strip s ≠ []) (re_split_terminators text).

(** A word: non-empty and free of whitespace. *)
Definition is_word (w : str) : Prop :=
  w ≠ [] ∧ Forall (λ c, isspace c = false) w.

(** ** The two helpers with Python's run-time errors

    [clean_suggestion] and [extract_suggestions] above are the functions on
    strings. Python does not check that an argument is a string: a method
    or built-in applied to a value of the wrong kind raises. Here the two
    bodies are written once more over run-time values, each operation
    raising where Python raises, so that whether a call raises is a
    property of the body and not of its type. *)

Global Instance outcome_ret : MRet outcome := λ A a, Ok a.

Global Instance outcome_bind : MBind outcome := λ A B k m,
  match m with
  | Ok a => k a
  | Raised e => Raised e
  end.

Module Py.

(** The values considered as arguments: [None], an [int], a [str]. *)
Inductive value : Type :=
  | VNone
  | VInt (n : Z)
  | VStr (s : str).

(** [type(v).__name__] *)
Definition type_name (v : value) : str :=
  match v with
  | VNone => U "NoneType"
  | VInt _ => U "int"
  | VStr _ => U "str"
  end.

(** [bool(v)], as [not v] uses it; it never raises. *)
Definition truth (v : value) : bool :=
  match v with
  | VNone => false
  | VInt n => negb (n =? 0)
  | VStr s => truthy s
  end.

(** [len(v)]: a [TypeError] unless [v] is a string. *)
Definition len (v : value) : outcome nat :=
  match v with
  | VStr s => Ok (length s)
  | _ => Raised (U "object of type '" ++ type_name v ++ U "' has no len()")
  end.

(** [v.strip()]: an [AttributeError] unless [v] is a string. *)
Definition strip (v : value) : outcome str :=
  match v with
  | VStr s => Ok (strip s)
  | _ => Raised (U "'" ++ type_name v ++ U "' object has no attribute 'strip'")
  end.

(** [v[n:]]: a [TypeError] unless [v] is a string; a slice never raises
    for being out of range. *)
Definition slice_from (v : value) (n : nat) : outcome value :=
  match v with
  | VStr s => Ok (VStr (drop n s))
  | _ => Raised (U "'" ++ type_name v ++ U "' object is not subscriptable")
  end.

(** A [for] loop whose body may raise, on the accumulated state. *)
Fixpoint for_each {A B} (body : A → B → outcome A) (a : A) (l : list B) : outcome A :=
  match l with
  | [] => Ok a
  | x :: rest => a' ← body a x; for_each body a' rest
  end.

Definition clean_suggestion (text : value) : outcome str :=
  if negb (truth text) then Ok []
  else
    cleaned ← strip text;
    let cleaned := re_sub_ends cleaned in
    if negb (re_search_letter cleaned) then Ok []
    else if (length cleaned <? 2)%nat then Ok []
    else Ok cleaned.

(** One turn of the loop of [extract_suggestions]; [word] is a string,
    [split] made it. *)
Definition extract_step (suggestions : list str) (word : str) : outcome (list str) :=
  cleaned ← clean_suggestion (VStr word);
  Ok (if truthy cleaned && negb (bool_decide (cleaned ∈ suggestions))
      then suggestions ++ [cleaned]
      else suggestions).

(** [not generated_text or len(generated_text) <= len(original_text)]:
    [or] does not evaluate its right side when the left side holds, and
    the two [len] calls are made from left to right. *)
Definition nothing_new (generated_text original_text : value) : outcome bool :=
  if negb (truth generated_text) then Ok true
  else
    n ← len generated_text;
    m ← len original_text;
    Ok (n <=? m)%nat.

Definition extract_suggestions (generated_text original_text : value) : outcome (list str) :=
  stop ← nothing_new generated_text original_text;
  if (stop : bool) then Ok []
  else
    m ← len original_text;
    rest ← slice_from generated_text m;
    new_part ← strip rest;
    if negb (truthy new_part) then Ok []
    else
      let words := split new_part in
      suggestions ← for_each extract_step [] (take 6 words);
      Ok (take N_SUGGESTIONS suggestions).

End Py.

(** * Properties *)

(** ** Sample runs *)

Example utf8_aaj : U "आज" = [0x0906; 0x091C].
Proof. reflexivity. Qed.

Example clean_strips_punctuation : clean_suggestion (U "...अच्छा,") = U "अच्छा".
Proof. vm_compute. reflexivity. Qed.

Example clean_digits_only : clean_suggestion (U "12") = [].
Proof. reflexivity. Qed.

Example clean_single_letter : clean_suggestion (U "a") = [].
Proof. reflexivity. Qed.

Example split_example : split (U "  आज   मौसम ") = [U "आज"; U "मौसम"].
Proof. vm_compute. reflexivity. Qed.

Example predict_demo :
  predict ascii_lower (Some demo_model) (U "आज मौसम") =
  ([ModelCall (U "आज मौसम") 6 12], Ok [U "अच्छा"; U "है।"; U "और"; U "Accha"]).
Proof. vm_compute. reflexivity. Qed.

(** ** Facts about the string operations *)

Section Trimming.

Variable p : Z → bool.

Lemma drop_leading_starts s : starts_clear p (drop_leading p s).
Proof.
  induction s as [|c s IH]; simpl; [done|].
  destruct (p c) eqn:Hc; [done|]. simpl. done.
Qed.

Lemma drop_leading_id s : starts_clear p s → drop_leading p s = s.
Proof. destruct s as [|c s]; simpl; [done|]. by intros ->. Qed.

Lemma drop_leading_all s : forallb p s = true → drop_leading p s = [].
Proof.
  induction s as [|c s IH]; simpl; [done|].
  intros [-> Hs]%andb_true_iff. auto.
Qed.

Lemma drop_leading_suffix s : drop_leading p s `suffix_of` s.
Proof.
  induction s as [|c s IH]; simpl; [done|].
  destruct (p c); [by apply suffix_cons_r | done].
Qed.

Lemma drop_trailing_all s : forallb p s = true → drop_trailing p s = [].
Proof. destruct s as [|c s]; simpl; [done|]. by intros ->. Qed.

Lemma drop_trailing_nil s : drop_trailing p s = [] → forallb p s = true.
Proof.
  destruct s as [|c s]; [done|].
  cbn [drop_trailing]. by destruct (forallb p (c :: s)).
Qed.

Lemma drop_trailing_ends s : ends_clear p (drop_trailing p s).
Proof.
  unfold ends_clear.
  induction s as [|c s IH]; [done|].
  cbn [drop_trailing].
  destruct (forallb p (c :: s)) eqn:Hall; [done|].
  destruct (drop_trailing p s) as [|d t] eqn:Hd.
  - apply drop_trailing_nil in Hd. simpl in *. rewrite Hd in Hall.
    by rewrite andb_true_r in Hall.
  - rewrite last_cons_cons. exact IH.
Qed.

Lemma forallb_last_false s c :
  last s = Some c → p c = false → forallb p s = false.
Proof.
  induction s as [|d s IH]; [done|].
  rewrite last_cons. destruct (last s) as [e|] eqn:Hl.
  - intros [= ->] Hc. simpl. rewrite IH; [|done..]. apply andb_false_r.
  - intros [= ->] Hc. simpl. by rewrite Hc.
Qed.

Lemma drop_trailing_id s : ends_clear p s → drop_trailing p s = s.
Proof.
  unfold ends_clear.
  induction s as [|c s IH]; [done|].
  rewrite last_cons. intros Hend.
  cbn [drop_trailing].
  destruct (last s) as [e|] eqn:Hl.
  - rewrite (forallb_last_false (c :: s) e); [|by rewrite last_cons, Hl|done].
    f_equal. apply IH. done.
  - apply last_None in Hl as ->. simpl. by rewrite Hend.
Qed.

Lemma drop_trailing_prefix s : drop_trailing p s `prefix_of` s.
Proof.
  induction s as [|c s IH]; [done|].
  cbn [drop_trailing]. destruct (forallb p (c :: s)).
  - apply prefix_nil.
  - by apply prefix_cons.
Qed.

Lemma drop_trailing_starts q s :
  starts_clear q s → starts_clear q (drop_trailing p s).
Proof.
  destruct s as [|c s]; [done|].
  cbn [drop_trailing]. by destruct (forallb p (c :: s)).
Qed.

End Trimming.

Lemma starts_clear_weaken (p q : Z → bool) s :
  (∀ c, p c = false → q c = false) → starts_clear p s → starts_clear q s.
Proof. destruct s; simpl; auto. Qed.

Lemma ends_clear_weaken (p q : Z → bool) s :
  (∀ c, p c = false → q c = false) → ends_clear p s → ends_clear q s.
Proof. unfold ends_clear. destruct (last s); auto. Qed.

Lemma strip_starts s : starts_clear isspace (strip s).
Proof. apply drop_trailing_starts, drop_leading_starts. Qed.

Lemma strip_ends s : ends_clear isspace (strip s).
Proof. apply drop_trailing_ends. Qed.

Lemma strip_id s :
  starts_clear isspace s → ends_clear isspace s → strip s = s.
Proof.
  intros Hs He. unfold strip. rewrite (drop_leading_id _ _ Hs).
  by apply drop_trailing_id.
Qed.

Lemma strip_strip s : strip (strip s) = strip s.
Proof. apply strip_id; [apply strip_starts | apply strip_ends]. Qed.

Lemma strip_whitespace_only s : forallb isspace s = true → strip s = [].
Proof. intros H. unfold strip. by rewrite drop_leading_all. Qed.


Lemma strip_no_trailing_space s : endswith (strip s) (U " ") = false.
Proof.
  unfold endswith. apply bool_decide_eq_false. intros [k Hk].
  pose proof (strip_ends s) as He. unfold ends_clear in He.
  rewrite Hk in He. change (U " ") with [32] in He.
  rewrite last_snoc in He. discriminate.
Qed.

(** [split] ignores whitespace at both ends, so splitting the stripped
    text gives the words of the text itself. *)
Lemma split_from_whitespace_only s :
  forallb isspace s = true → split_from [] s = [].
Proof.
  induction s as [|c s IH]; simpl; [done|].
  intros [-> Hs]%andb_true_iff. auto.
Qed.

Lemma split_drop_leading s : split (drop_leading isspace s) = split s.
Proof.
  unfold split. induction s as [|c s IH]; simpl; [done|].
  destruct (isspace c) eqn:Hc; [done|]. simpl. by rewrite Hc.
Qed.

Lemma split_from_drop_trailing cur s :
  split_from cur (drop_trailing isspace s) = split_from cur s.
Proof.
  revert cur. induction s as [|c s IH]; intros cur; [done|].
  cbn [drop_trailing].
  destruct (forallb isspace (c :: s)) eqn:Hall.
  - simpl in Hall. apply andb_true_iff in Hall as [Hc Hs].
    simpl. rewrite Hc, (split_from_whitespace_only s Hs). by destruct cur.
  - simpl. destruct (isspace c); [|apply IH].
    destruct cur; by rewrite IH.
Qed.

Lemma split_strip s : split (strip s) = split s.
Proof.
  unfold strip, split at 1. rewrite split_from_drop_trailing.
  apply split_drop_leading.
Qed.

(** ** Facts about the character classes *)

Lemma tail_class_head_class c : tail_class c = head_class c.
Proof.
  unfold tail_class, head_class, devanagari, latin, ascii_digit, in_range, danda.
  destruct (c =? 2404) eqn:Hc; [|apply orb_false_r].
  apply Z.eqb_eq in Hc as ->. reflexivity.
Qed.

Lemma head_class_not_space c : negb (head_class c) = false → isspace c = false.
Proof.
  rewrite negb_false_iff.
  unfold head_class, devanagari, latin, ascii_digit, in_range, isspace.
  rewrite !orb_true_iff, !andb_true_iff, !Z.leb_le. intros H.
  repeat (apply orb_false_intro);
    rewrite ?andb_false_iff, ?Z.leb_gt, ?Z.eqb_neq; lia.
Qed.

Lemma tail_class_not_space c : negb (tail_class c) = false → isspace c = false.
Proof. rewrite tail_class_head_class. apply head_class_not_space. Qed.

Lemma letter_class_head_class c : letter_class c = true → head_class c = true.
Proof. unfold letter_class, head_class. intros ->. done. Qed.

Lemma re_sub_ends_starts s : starts_clear (λ c, negb (head_class c)) (re_sub_ends s).
Proof. apply drop_trailing_starts, drop_leading_starts. Qed.

Lemma re_sub_ends_ends s : ends_clear (λ c, negb (tail_class c)) (re_sub_ends s).
Proof. apply drop_trailing_ends. Qed.

Lemma re_sub_ends_id s :
  starts_clear (λ c, negb (head_class c)) s →
  ends_clear (λ c, negb (tail_class c)) s →
  re_sub_ends s = s.
Proof.
  intros Hs He. unfold re_sub_ends. rewrite (drop_leading_id _ _ Hs).
  by apply drop_trailing_id.
Qed.

(** ** Facts about [clean_suggestion] *)

(** What a token that survives cleaning looks like. *)
Lemma clean_suggestion_kept text :
  clean_suggestion text = [] ∨
  (clean_suggestion text = re_sub_ends (strip text) ∧
   re_search_letter (clean_suggestion text) = true ∧
   (2 ≤ length (clean_suggestion text))%nat).
Proof.
  unfold clean_suggestion.
  destruct (truthy text); simpl; [|by left].
  destruct (re_search_letter (re_sub_ends (strip text))) eqn:Hl; simpl; [|by left].
  destruct (length (re_sub_ends (strip text)) <? 2)%nat eqn:Hn; [by left|].
  right. apply Nat.ltb_ge in Hn. done.
Qed.

Lemma clean_suggestion_fixed text :
  clean_suggestion text ≠ [] →
  clean_suggestion (clean_suggestion text) = clean_suggestion text.
Proof.
  intros Hne.
  destruct (clean_suggestion_kept text) as [?|(Heq & Hl & Hn)]; [done|].
  set (r := clean_suggestion text) in *.
  assert (Hstart : starts_clear (λ c, negb (head_class c)) r)
    by (rewrite Heq; apply re_sub_ends_starts).
  assert (Hend : ends_clear (λ c, negb (tail_class c)) r)
    by (rewrite Heq; apply re_sub_ends_ends).
  assert (Hstrip : strip r = r).
  { apply strip_id.
    - eapply starts_clear_weaken; [apply head_class_not_space | done].
    - eapply ends_clear_weaken; [apply tail_class_not_space | done]. }
  unfold clean_suggestion at 1.
  destruct r as [|c r'] eqn:Hr; [done|]. simpl truthy. simpl negb. cbv iota.
  rewrite Hstrip, (re_sub_ends_id _ Hstart Hend), Hl. simpl negb. cbv iota.
  apply Nat.ltb_ge in Hn. by rewrite Hn.
Qed.

(** ** Cleaning and extraction *)

(** C10: cleaning is idempotent. A token that survives begins and ends
    with a character of the kept classes, so neither [strip] nor the
    substitution touch it again and the two checks pass as before; a
    discarded token gives the empty string, which cleans to itself. *)
Theorem clean_suggestion_idempotent (t : str) :
  clean_suggestion (clean_suggestion t) = clean_suggestion t.
Proof.
  destruct (decide (clean_suggestion t = [])) as [Hnil|Hne].
  - rewrite Hnil. reflexivity.
  - by apply clean_suggestion_fixed.
Qed.

(** ** Accepting a suggestion *)

(** C5 as the claim words it is refuted: with two trailing spaces the
    buffer is non-empty after trimming and ends with whitespace, yet the
    handler does not return [b + s]. *)
Lemma accept_trailing_whitespace_not_kept :
  strip (U "आज  ") ≠ [] ∧ last (U "आज  ") = Some 32 ∧
  accept (U "आज  ") (U "अच्छा") = U "आज अच्छा" ∧
  U "आज  " ++ U "अच्छा" = U "आज  अच्छा" ∧
  accept (U "आज  ") (U "अच्छा") ≠ U "आज  " ++ U "अच्छा".
Proof. vm_compute. split_and!; done. Qed.

(** C5, amended: the handler trims the buffer first; it returns the
    suggestion alone when nothing is left and otherwise the trimmed
    buffer, one space and the suggestion, whatever whitespace the buffer
    ended with. The three examples of the specification hold. *)
Theorem accept_trims_then_appends (b s : str) :
  accept b s = (if truthy (strip b) then strip b ++ U " " ++ s else s) ∧
  accept (U "") (U "नमस्ते") = U "नमस्ते" ∧
  accept (U "आज ") (U "अच्छा") = U "आज अच्छा" ∧
  accept (U "आज") (U "अच्छा") = U "आज अच्छा".
Proof.
  split_and!; [|vm_compute; reflexivity..].
  unfold accept. rewrite strip_no_trailing_space.
  by destruct (truthy (strip b)).
Qed.

(** ** When prediction is suppressed *)

Lemma should_predict_blank b : forallb isspace b = true → should_predict b = false.
Proof.
  intros H. unfold should_predict. rewrite (strip_whitespace_only b H).
  simpl. by rewrite orb_true_r.
Qed.

Lemma should_predict_terminated b c :
  last (strip b) = Some c → c ∈ [danda; 46; 33; 63] → should_predict b = false.
Proof.
  intros Hlast Hc. unfold should_predict.
  destruct (negb (truthy b) || (length (strip b) <? 1)%nat); [done|].
  assert (Hex : existsb (endswith (strip b)) terminators = true).
  { apply existsb_exists. exists [c]. split.
    - change terminators with [[danda]; [46]; [33]; [63]].
      apply list_elem_of_In. rewrite !elem_of_cons, elem_of_nil in Hc.
      rewrite !elem_of_cons. destruct Hc as [->|[->|[->|[->|[]]]]]; auto 10.
    - apply bool_decide_eq_true. apply last_Some in Hlast as [k ->].
      by exists k. }
  by rewrite Hex.
Qed.

(** C4: on an empty or whitespace-only buffer, and on a buffer whose
    trimmed form ends with one of the terminators [।], [.], [!], [?],
    [predict] returns the empty list and its trace is empty: the model is
    not called. *)
Theorem predict_suppressed (lower : str → str) (generator : option model) (b : str) :
  forallb isspace b = true ∨
  (∃ c, last (strip b) = Some c ∧ c ∈ [danda; 46; 33; 63]) →
  predict lower generator b = ([], Ok []).
Proof.
  intros H. unfold predict.
  assert (should_predict b = false) as ->; [|done].
  destruct H as [H|(c & Hlast & Hc)].
  - by apply should_predict_blank.
  - by eapply should_predict_terminated.
Qed.

Lemma predict_suppressed_witness :
  predict ascii_lower (Some demo_model) (U "   ") = ([], Ok []) ∧
  predict ascii_lower (Some demo_model) (U "आज मौसम अच्छा है। ") = ([], Ok []).
Proof.
  split.
  - apply predict_suppressed. left. vm_compute. reflexivity.
  - apply predict_suppressed. right. exists danda. split.
    + vm_compute. reflexivity.
    + apply list_elem_of_here.
Defined.

(** ** The shape of a run of [generate_predictions] *)

(** Unfold the trace monad down to pairs. *)
Ltac run_trace :=
  cbv [mbind M_bind call_model try_except mret M_ret st_error].

(** With a loaded model and a non-empty text there is one model call,
    and the run ends according to its outcome. *)
Lemma generate_predictions_run lower (g : model) text :
  text ≠ [] →
  generate_predictions lower (Some g) text =
  match g (context_of text) with
  | Ok results =>
      ([ModelCall (context_of text) 6 12],
       Ok (take N_SUGGESTIONS
             (unique_of lower text (collect results (context_of text)))))
  | Raised e =>
      ([ModelCall (context_of text) 6 12; StError (generation_problem ++ e)],
       Ok [])
  end.
Proof.
  destruct text as [|c text]; [done|]. intros _.
  set (t := c :: text).
  cbv [generate_predictions]. cbn [truthy negb]. fold t. run_trace.
  by destruct (g (context_of t)).
Qed.

Lemma generate_predictions_idle lower generator text :
  generator = None ∨ text = [] →
  generate_predictions lower generator text = ([], Ok []).
Proof.
  intros [->| ->]; [done|]. by destruct generator.
Qed.

Lemma generate_predictions_cases lower generator text :
  generate_predictions lower generator text = ([], Ok []) ∨
  ∃ g, generator = Some g ∧ text ≠ [] ∧
    ((∃ results, g (context_of text) = Ok results ∧
        generate_predictions lower generator text =
          ([ModelCall (context_of text) 6 12],
           Ok (take N_SUGGESTIONS
                 (unique_of lower text (collect results (context_of text))))))
     ∨
     (∃ e, g (context_of text) = Raised e ∧
        generate_predictions lower generator text =
          ([ModelCall (context_of text) 6 12;
            StError (generation_problem ++ e)], Ok []))).
Proof.
  destruct generator as [g|]; [|left; apply generate_predictions_idle; by left].
  destruct (decide (text = [])) as [->|Hne]; [by left|].
  right. exists g. split_and!; [done..|].
  rewrite (generate_predictions_run lower g text Hne).
  destruct (g (context_of text)) as [results|e]; [left|right]; eauto.
Qed.

Lemma predict_cases lower generator text :
  predict lower generator text = ([], Ok []) ∨
  (should_predict text = true ∧
   predict lower generator text = generate_predictions lower generator text).
Proof.
  unfold predict.
  destruct (should_predict text); [|by left].
  destruct generator; [by right|by left].
Qed.

(** C6: the prompt sent to the model. For a non-empty buffer and a loaded
    model, generation makes exactly one model call; its prompt is the last
    six words joined by single spaces when the buffer has more than six
    words, and the trimmed buffer otherwise. For the seven-word buffer of
    the specification the prompt is its last six words. *)
Theorem context_windowing :
  (∀ lower (g : model) (b : str),
      b ≠ [] →
      prompts (generate_predictions lower (Some g) b).1 =
        [if (6 <? length (split b))%nat
         then join (U " ") (drop (length (split b) - 6) (split b))
         else strip b]) ∧
  (∀ lower (g : model),
      prompts (generate_predictions lower (Some g)
                 (U "एक दो तीन चार पांच छह सात")).1 =
        [U "दो तीन चार पांच छह सात"]).
Proof.
  assert (Hgen : ∀ lower (g : model) (b : str), b ≠ [] →
            prompts (generate_predictions lower (Some g) b).1 = [context_of b]).
  { intros lower g b Hb. rewrite (generate_predictions_run lower g b Hb).
    by destruct (g (context_of b)). }
  split.
  - intros lower g b Hb. rewrite (Hgen lower g b Hb).
    unfold context_of, last_n. by rewrite split_strip.
  - intros lower g. rewrite Hgen; [|done]. vm_compute. reflexivity.
Qed.

Lemma context_windowing_witness :
  U "आज मौसम" ≠ [] ∧
  prompts (generate_predictions ascii_lower (Some demo_model) (U "आज मौसम")).1 =
    [U "आज मौसम"].
Proof.
  split; [done|].
  rewrite (proj1 context_windowing ascii_lower demo_model (U "आज मौसम")); [|done].
  vm_compute. reflexivity.
Defined.

(** C8: a failing model call. If a run of [predict] called the model and
    the model raised on that prompt, the run returns the empty list (it
    does not raise) and shows the failure exactly once. *)
Theorem generation_failure_reported
    (lower : str → str) (g : model) (b c e : str) (n k : nat) :
  ModelCall c n k ∈ (predict lower (Some g) b).1 →
  g c = Raised e →
  (predict lower (Some g) b).2 = Ok [] ∧
  errors_shown (predict lower (Some g) b).1 = [generation_problem ++ e].
Proof.
  intros Hcall Hraise.
  destruct (predict_cases lower (Some g) b) as [Hnil|[_ Heq]].
  { rewrite Hnil in Hcall. by apply elem_of_nil in Hcall. }
  rewrite Heq in *. clear Heq.
  destruct (generate_predictions_cases lower (Some g) b)
    as [Hnil|(g' & [= <-] & _ & [(results & Hg & Hrun)|(e' & Hg & Hrun)])];
    rewrite ?Hnil, ?Hrun in *.
  - by apply elem_of_nil in Hcall.
  - apply list_elem_of_singleton in Hcall as [= -> _ _]. congruence.
  - apply elem_of_cons in Hcall as [[= -> _ _]|Hcall].
    + assert (e' = e) as -> by congruence. done.
    + by apply list_elem_of_singleton in Hcall.
Qed.

Lemma generation_failure_reported_witness :
  (predict ascii_lower (Some failing_model) (U "आज मौसम")).2 = Ok [] ∧
  errors_shown (predict ascii_lower (Some failing_model) (U "आज मौसम")).1 =
    [U "सुझाव बनाने में समस्या: CUDA out of memory"].
Proof.
  apply (generation_failure_reported ascii_lower failing_model
           (U "आज मौसम") (U "आज मौसम") (U "CUDA out of memory") 6 12).
  - vm_compute. apply list_elem_of_here.
  - reflexivity.
Defined.

(** ** Substring test *)

Lemma starts_with_prefix p s : starts_with p s = true ↔ p `prefix_of` s.
Proof.
  revert s. induction p as [|a p IH]; intros s; simpl.
  - split; [intros _; apply prefix_nil | done].
  - destruct s as [|b s].
    + split; [done|]. intros [k Hk]. discriminate.
    + rewrite andb_true_iff, Z.eqb_eq, IH. split.
      * intros [-> Hp]. by apply prefix_cons.
      * intros [k [= -> ->]]. split; [done|]. by exists k.
Qed.

Lemma contains_occurs s sub : contains s sub = true ↔ occurs_in sub s.
Proof.
  induction s as [|c s IH].
  - simpl. rewrite orb_false_r, starts_with_prefix. split.
    + intros [k Hk]. by exists [], k.
    + intros (pre & post & H). symmetry in H.
      apply app_eq_nil in H as [-> H]. apply app_eq_nil in H as [-> ->]. done.
  - cbn [contains]. rewrite orb_true_iff, starts_with_prefix, IH. split.
    + intros [[k Hk]|(pre & post & ->)].
      * by exists [], k.
      * by exists (c :: pre), post.
    + intros ([|d pre] & post & H).
      * left. by exists post.
      * right. injection H as -> ->. by exists pre, post.
Qed.

(** ** The final filter *)

Section FinalFilter.

Variable lower : str → str.
Variable text : str.

Lemma filter_step_inv all_suggestions st s :
  s ∈ all_suggestions →
  filter_inv lower text all_suggestions st →
  filter_inv lower text all_suggestions (filter_step lower text st s).
Proof.
  destruct st as [unique seen]. intros Hin (Hseen & Hnd & Hall).
  unfold filter_step.
  destruct (truthy s && negb (bool_decide (lower s ∈ seen))
            && negb (contains text s) && (2 <=? length s)%nat) eqn:Hcond;
    [|done].
  repeat (apply andb_true_iff in Hcond as [Hcond ?]).
  rewrite negb_true_iff in *.
  match goal with H : bool_decide _ = false |- _ =>
    apply bool_decide_eq_false in H; rename H into Hfresh end.
  match goal with H : (2 <=? _)%nat = true |- _ =>
    apply Nat.leb_le in H; rename H into Hlen end.
  unfold filter_inv. cbn [fst snd] in *. split_and!.
  - intros k. rewrite fmap_app, elem_of_union, elem_of_singleton, elem_of_app.
    simpl. rewrite list_elem_of_singleton, Hseen. tauto.
  - rewrite fmap_app. apply NoDup_app. split_and!; [done| |apply NoDup_singleton].
    intros k Hk [= ->]%list_elem_of_singleton. apply Hfresh, Hseen, Hk.
  - apply Forall_app. split; [done|]. by apply Forall_singleton.
Qed.

Lemma foldl_filter_inv all_suggestions l st :
  l ⊆ all_suggestions →
  filter_inv lower text all_suggestions st →
  filter_inv lower text all_suggestions (foldl (filter_step lower text) st l).
Proof.
  revert st. induction l as [|s l IH]; intros st Hsub Hinv; [done|].
  simpl. apply IH.
  - intros x Hx. apply Hsub. by right.
  - apply filter_step_inv; [|done]. apply Hsub. by left.
Qed.

Lemma unique_of_inv all_suggestions :
  NoDup (lower <$> unique_of lower text all_suggestions) ∧
  Forall (λ s, contains text s = false ∧ (2 ≤ length s)%nat ∧ s ∈ all_suggestions)
         (unique_of lower text all_suggestions).
Proof.
  unfold unique_of.
  destruct (foldl_filter_inv all_suggestions all_suggestions ([], ∅))
    as (_ & Hnd & Hall); [done| |done].
  split_and!; simpl.
  - intros k. rewrite elem_of_empty, elem_of_nil. done.
  - apply NoDup_nil_2.
  - done.
Qed.

End FinalFilter.

(** ** What [predict] returns *)

(** Every run returns normally: either nothing, or the first
    [N_SUGGESTIONS] entries of the filtered candidates. *)
Lemma predict_returns lower generator b :
  ∃ l, (predict lower generator b).2 = Ok l ∧
       (l = [] ∨ ∃ results context,
                   l = take N_SUGGESTIONS
                         (unique_of lower b (collect results context))).
Proof.
  destruct (predict_cases lower generator b) as [->|[_ ->]]; [by eauto|].
  destruct (generate_predictions_cases lower generator b)
    as [->|(g & _ & _ & [(results & _ & ->)|(e & _ & ->)])]; simpl; eauto 10.
Qed.

(** C1: [predict] returns at most four suggestions, and no two of them
    have the same lower-cased form. *)
Theorem predict_at_most_four_distinct
    (lower : str → str) (generator : option model) (b : str) :
  ∃ l, (predict lower generator b).2 = Ok l ∧
       (length l ≤ 4)%nat ∧ NoDup (lower <$> l).
Proof.
  destruct (predict_returns lower generator b)
    as (l & Hl & [->|(results & context & ->)]);
    eexists; (split; [exact Hl|]).
  - split; [simpl; lia | apply NoDup_nil_2].
  - split.
    + rewrite length_take. unfold N_SUGGESTIONS. lia.
    + rewrite fmap_take. eapply sublist_NoDup; [|apply sublist_take].
      apply unique_of_inv.
Qed.

(** C3: no suggestion returned by [predict] occurs in the buffer text. *)
Theorem predict_not_in_buffer
    (lower : str → str) (generator : option model) (b : str) :
  ∃ l, (predict lower generator b).2 = Ok l ∧
       Forall (λ s, ¬ occurs_in s b) l.
Proof.
  destruct (predict_returns lower generator b)
    as (l & Hl & [->|(results & context & ->)]);
    eexists; (split; [exact Hl|]); [done|].
  apply Forall_take.
  eapply Forall_impl; [apply (unique_of_inv lower b (collect results context))|].
  intros s (Hc & _ & _) Hocc. apply contains_occurs in Hocc. congruence.
Qed.

(** ** The candidate list before the final filter *)

Lemma collect_concat results context :
  collect results context =
  concat ((λ generated_text, extract_suggestions generated_text context) <$> results).
Proof.
  unfold collect.
  enough (∀ acc, foldl (λ all_suggestions generated_text,
                          all_suggestions ++ extract_suggestions generated_text context)
                   acc results
                 = acc ++ concat ((λ g, extract_suggestions g context) <$> results))
    as H by apply (H []).
  induction results as [|r results IH]; intros acc; simpl.
  - by rewrite app_nil_r.
  - by rewrite IH, app_assoc.
Qed.

Lemma extract_loop words : ∀ acc seen,
  (∀ x, x ∈ seen ↔ x ∈ acc) →
  foldl extract_step acc words =
  acc ++ keep_unseen id seen (filter (λ t : str, t ≠ []) (clean_suggestion <$> words)).
Proof.
  induction words as [|w words IH]; intros acc seen Hseen; simpl.
  - by rewrite app_nil_r.
  - unfold extract_step at 2.
    destruct (clean_suggestion w) as [|c cleaned] eqn:Hclean.
    + simpl. rewrite filter_cons_False by (intros H; by apply H). by apply IH.
    + rewrite filter_cons_True by done. cbn [truthy andb keep_unseen id].
      destruct (decide ((c :: cleaned) ∈ acc)) as [Hin|Hout].
      * rewrite (bool_decide_eq_true_2 _ Hin).
        rewrite bool_decide_eq_true_2 by (by apply Hseen).
        by apply IH.
      * rewrite (bool_decide_eq_false_2 _ Hout).
        rewrite bool_decide_eq_false_2 by (by rewrite Hseen).
        cbn [negb]. rewrite (IH _ ((c :: cleaned) :: seen)).
        -- by rewrite <- app_assoc.
        -- intros x. rewrite elem_of_cons, elem_of_app, list_elem_of_singleton, Hseen.
           tauto.
Qed.

Lemma extract_suggestions_tokens generated_text context :
  extract_suggestions generated_text context =
  take N_SUGGESTIONS (keep_unseen id [] (cleaned_tokens context generated_text)).
Proof.
  unfold extract_suggestions, cleaned_tokens.
  destruct (length generated_text <=? length context)%nat eqn:Hlen.
  { by rewrite orb_true_r. }
  rewrite orb_false_r.
  destruct generated_text as [|c g]; [done|]. cbn [truthy negb].
  set (new_part := strip (drop (length context) (c :: g))).
  destruct new_part as [|d rest] eqn:Hnew; [done|]. cbn [truthy negb].
  by rewrite (extract_loop _ [] []).
Qed.

Lemma keep_unseen_subseteq key seen tokens : keep_unseen key seen tokens ⊆ tokens.
Proof.
  revert seen. induction tokens as [|t tokens IH]; intros seen; simpl; [done|].
  destruct (bool_decide (key t ∈ seen)).
  - intros x Hx. right. by eapply IH.
  - intros x [->|Hx]%elem_of_cons; [by left|]. right. by eapply IH.
Qed.

(** C7 as the claim words it is refuted: two continuations with the same
    next word put that word twice into the candidate list, where one pass
    of case-insensitive deduplication would keep it once. *)
Lemma candidates_repeat_across_continuations :
  collect [U "आज अच्छा"; U "आज अच्छा"] (U "आज") = [U "अच्छा"; U "अच्छा"] ∧
  candidates_as_specified ascii_lower (U "आज") [U "आज अच्छा"; U "आज अच्छा"]
    = [U "अच्छा"] ∧
  collect [U "आज अच्छा"; U "आज अच्छा"] (U "आज") ≠
  candidates_as_specified ascii_lower (U "आज") [U "आज अच्छा"; U "आज अच्छा"].
Proof. vm_compute. split_and!; done. Qed.

(** C7, amended: the candidate list is the concatenation, in the order of
    the continuations, of one list per continuation: its cleaned tokens in
    order of first appearance, a token being dropped only when the very
    same string occurred earlier in that continuation, cut to the first
    four. Repeats across continuations and tokens differing only in case
    stay in the list; the case-insensitive test belongs to the final
    filter. *)
Theorem candidates_per_continuation (results : list str) (context : str) :
  collect results context =
  concat ((λ generated_text,
             take 4 (keep_unseen id [] (cleaned_tokens context generated_text)))
          <$> results).
Proof.
  rewrite collect_concat. f_equal. apply list_fmap_ext.
  intros _ r _. apply extract_suggestions_tokens.
Qed.

(** ** Validity of the returned suggestions *)

Lemma elem_of_concat {A} (x : A) (ls : list (list A)) :
  x ∈ concat ls ↔ ∃ l, x ∈ l ∧ l ∈ ls.
Proof.
  induction ls as [|a ls IH]; simpl.
  - rewrite elem_of_nil. split; [done|].
    intros (l & _ & H). by apply elem_of_nil in H.
  - rewrite elem_of_app, IH. split.
    + intros [H|(l & H1 & H2)].
      * exists a. split; [done|by left].
      * exists l. split; [done|by right].
    + intros (l & H1 & [->|H2]%elem_of_cons); [by left|right; eauto].
Qed.

Lemma collect_cleaned results context s :
  s ∈ collect results context → ∃ w, s = clean_suggestion w ∧ s ≠ [].
Proof.
  rewrite collect_concat. intros Hs.
  apply elem_of_concat in Hs as (l & Hs & Hl).
  apply list_elem_of_fmap in Hl as (r & -> & _).
  rewrite extract_suggestions_tokens in Hs.
  apply subseteq_take, keep_unseen_subseteq in Hs.
  unfold cleaned_tokens in Hs.
  destruct (length r <=? length context)%nat; [by apply elem_of_nil in Hs|].
  apply list_elem_of_filter in Hs as [Hne Hs].
  apply list_elem_of_fmap in Hs as (w & -> & _). by exists w.
Qed.

(** Every returned suggestion has at least two characters and one that
    the letter test of [clean_suggestion] accepts. *)
Lemma predict_suggestions_pass_checks lower generator b :
  ∃ l, (predict lower generator b).2 = Ok l ∧
       Forall (λ s, (2 ≤ length s)%nat ∧ existsb letter_class s = true) l.
Proof.
  destruct (predict_returns lower generator b)
    as (l & Hl & [->|(results & context & ->)]);
    eexists; (split; [exact Hl|]); [done|].
  apply Forall_take.
  eapply Forall_impl; [apply (unique_of_inv lower b (collect results context))|].
  intros s (_ & Hlen & Hin). split; [done|].
  apply collect_cleaned in Hin as (w & Hs & Hne).
  destruct (clean_suggestion_kept w) as [Hnil|(_ & Hletter & _)]; [congruence|].
  by rewrite Hs.
Qed.

(** C2 fails on the code: the letter test accepts the whole Devanagari
    block, which holds the danda and the Devanagari digits, so a token of
    dandas only and a token of digits only are offered as suggestions. *)
Theorem predict_offers_punctuation_and_digits :
  predict ascii_lower (Some danda_model) (U "आज") =
    ([ModelCall (U "आज") 6 12], Ok [U "।।"; U "१२"; U "है"]) ∧
  forallb devanagari_punctuation (U "।।") = true ∧
  forallb devanagari_digit (U "१२") = true ∧
  existsb alphabetic (U "।।") = false ∧
  existsb alphabetic (U "१२") = false.
Proof. vm_compute. split_and!; reflexivity. Qed.

(** ** More sample runs *)

Example undo_example : undo_last_word (U " आज  मौसम अच्छा ") = U "आज मौसम ".
Proof. vm_compute. reflexivity. Qed.

Example undo_single_word : undo_last_word (U "आज") = [].
Proof. vm_compute. reflexivity. Qed.

Example full_stop_example : full_stop (U "आज मौसम") = U "आज मौसम। ".
Proof. vm_compute. reflexivity. Qed.

Example re_split_example :
  re_split_terminators (U "आज। कल?! ") = [U "आज"; U " कल"; U " "].
Proof. vm_compute. reflexivity. Qed.

Example sentences_example :
  sentences (U "आज मौसम अच्छा है। कल?! ") = [U "आज मौसम अच्छा है"; U "कल"].
Proof. vm_compute. reflexivity. Qed.

Example load_failure_example :
  load_hindi_model (Raised (U "no network")) =
  ([StError (U "❌ मॉडल लोड नहीं हो सका: no network")], Ok None).
Proof. vm_compute. reflexivity. Qed.

(** ** Words of a text *)

Lemma split_from_snoc_space cur s1 c s2 :
  isspace c = true →
  split_from cur (s1 ++ c :: s2) = split_from cur s1 ++ split s2.
Proof.
  intros Hc. revert cur. induction s1 as [|d s1 IH]; intros cur; simpl.
  - rewrite Hc. by destruct cur.
  - destruct (isspace d); [|apply IH].
    destruct cur; rewrite IH; done.
Qed.

Lemma split_app_space s1 c s2 :
  isspace c = true → split (s1 ++ c :: s2) = split s1 ++ split s2.
Proof. apply split_from_snoc_space. Qed.

Lemma split_from_word cur w :
  Forall (λ c, isspace c = false) w →
  cur ≠ [] ∨ w ≠ [] →
  split_from cur w = [reverse cur ++ w].
Proof.
  intros Hw. revert cur. induction Hw as [|c w Hc Hw IH]; intros cur Hne; simpl.
  - destruct Hne as [Hne|?]; [|done]. rewrite app_nil_r. by destruct cur.
  - rewrite Hc, IH by (by left). by rewrite reverse_cons, <- app_assoc.
Qed.

Lemma split_word w : is_word w → split w = [w].
Proof. intros [Hne Hw]. unfold split. rewrite split_from_word; auto. Qed.

(** Every word that [split] returns is a word, given that the pending
    word [cur] is free of whitespace. *)
Lemma split_from_words cur s :
  Forall (λ c, isspace c = false) cur →
  Forall is_word (split_from cur s).
Proof.
  revert cur. induction s as [|c s IH]; intros cur Hcur; simpl.
  - destruct cur as [|d cur]; [done|]. apply Forall_singleton. split.
    + rewrite reverse_cons. by destruct (reverse cur).
    + by apply Forall_reverse.
  - destruct (isspace c) eqn:Hc.
    + destruct cur as [|d cur]; [by apply IH|].
      apply Forall_cons. split; [|by apply IH]. split.
      * rewrite reverse_cons. by destruct (reverse cur).
      * by apply Forall_reverse.
    + apply IH. by apply Forall_cons.
Qed.

Lemma split_words s : Forall is_word (split s).
Proof. by apply split_from_words. Qed.

Lemma split_join words :
  Forall is_word words → split (join (U " ") words) = words.
Proof.
  induction 1 as [|w words Hw Hws IH]; [done|].
  destruct words as [|w' words].
  - simpl. by apply split_word.
  - change (join (U " ") (w :: w' :: words))
      with (w ++ 32 :: join (U " ") (w' :: words)).
    rewrite split_app_space by done. rewrite IH. by rewrite split_word.
Qed.

Lemma split_snoc_space s : split (s ++ U " ") = split s.
Proof.
  change (U " ") with [32]. rewrite split_app_space by done.
  apply app_nil_r.
Qed.

(** A word of the text occurs in the text. *)
Lemma split_from_occurs cur s w :
  w ∈ split_from cur s → occurs_in w (reverse cur ++ s).
Proof.
  revert cur. induction s as [|c s IH]; intros cur; simpl.
  - destruct cur as [|d cur]; [by intros ?%elem_of_nil|].
    intros ->%list_elem_of_singleton. exists [], []. by rewrite !app_nil_r.
  - destruct (isspace c).
    + destruct cur as [|d cur].
      * intros (pre & post & Hs)%IH. change (reverse [] ++ s) with s in Hs.
        subst s. by exists (c :: pre), post.
      * intros [->|(pre & post & Hs)%IH]%elem_of_cons.
        -- by exists [], (c :: s).
        -- change (reverse [] ++ s) with s in Hs. subst s.
           exists (reverse (d :: cur) ++ c :: pre), post.
           by rewrite <- !app_assoc.
    + intros (pre & post & Hs)%IH. rewrite reverse_cons, <- app_assoc in Hs.
      by exists pre, post.
Qed.

Lemma split_occurs s w : w ∈ split s → occurs_in w s.
Proof. apply (split_from_occurs []). Qed.

(** ** The prompt and the decision to predict *)

Lemma context_of_words text : split (context_of text) = last_n 6 (split text).
Proof.
  unfold context_of. rewrite split_strip.
  destruct (6 <? length (split text))%nat eqn:Hlen.
  - apply split_join. unfold last_n. apply Forall_drop, split_words.
  - rewrite split_strip. apply Nat.ltb_ge in Hlen. unfold last_n.
    by replace (length (split text) - 6)%nat with 0%nat by lia.
Qed.

Lemma generate_predictions_prompts lower generator text :
  prompts (generate_predictions lower generator text).1 = [] ∨
  prompts (generate_predictions lower generator text).1 = [context_of text].
Proof.
  destruct (generate_predictions_cases lower generator text)
    as [->|(g & _ & _ & [(results & _ & ->)|(e & _ & ->)])]; auto.
Qed.

(** The words of every prompt sent to the model are the last six words of
    the text, or all of them when there are fewer; a prompt never has more
    than six words. *)
Theorem prompt_is_last_six_words
    (lower : str → str) (generator : option model) (text : str) :
  Forall (λ prompt, split prompt = last_n 6 (split text) ∧
                    (length (split prompt) ≤ 6)%nat)
         (prompts (generate_predictions lower generator text).1).
Proof.
  destruct (generate_predictions_prompts lower generator text) as [->| ->];
    [done|].
  apply Forall_singleton. rewrite context_of_words. split; [done|].
  unfold last_n. rewrite length_drop. lia.
Qed.

Lemma endswith_snoc k c t : endswith (k ++ [c]) [t] = (c =? t).
Proof.
  unfold endswith. destruct (Z.eqb_spec c t) as [->|Hne].
  - apply bool_decide_eq_true. by exists k.
  - apply bool_decide_eq_false. intros [k' Hk'].
    apply app_inj_tail in Hk' as [_ ?]. done.
Qed.

Lemma endswith_terminator s :
  existsb (endswith s) terminators =
  match last s with Some c => is_terminator c | None => false end.
Proof.
  change terminators with [[danda]; [46]; [33]; [63]].
  destruct (last s) as [c|] eqn:Hlast.
  - apply last_Some in Hlast as [k ->]. simpl.
    rewrite !endswith_snoc. unfold is_terminator. by rewrite orb_false_r, !orb_assoc.
  - apply last_None in Hlast as ->. reflexivity.
Qed.

Lemma should_predict_last (text : str) :
  should_predict text = true ↔
  ∃ c, last (strip text) = Some c ∧ is_terminator c = false.
Proof.
  unfold should_predict. rewrite endswith_terminator.
  destruct text as [|a text]; simpl negb; simpl orb.
  { split; [done|]. by intros (c & [=] & _). }
  set (t := a :: text).
  destruct (last (strip t)) as [c|] eqn:Hlast.
  - apply last_Some in Hlast as Hk. destruct Hk as [k Hk]. rewrite Hk.
    rewrite length_app. simpl.
    replace (length k + 1 <? 1)%nat with false
      by (symmetry; apply Nat.ltb_ge; lia).
    destruct (is_terminator c) eqn:Hc.
    + split; [done|]. intros (c' & [= <-] & ?). congruence.
    + split; [|done]. intros _. by exists c.
  - apply last_None in Hlast. rewrite Hlast. simpl.
    split; [done|]. by intros (c & [=] & _).
Qed.

(** Predictions are wanted exactly when the trimmed text is non-empty and
    its last character is none of the four terminators. *)
Theorem should_predict_iff (text : str) :
  should_predict text = true ↔
  ∃ c, last (strip text) = Some c ∧ is_terminator c = false.
Proof. apply should_predict_last. Qed.

Lemma split_from_nil cur s :
  split_from cur s = [] → cur = [] ∧ forallb isspace s = true.
Proof.
  revert cur. induction s as [|c s IH]; intros cur; simpl.
  - by destruct cur.
  - destruct (isspace c).
    + destruct cur; [|done]. intros H. by apply IH in H as [_ ->].
    + intros H. by apply IH in H as [? _].
Qed.

Lemma split_nil s : split s = [] → strip s = [].
Proof.
  intros H. apply split_from_nil in H as [_ H]. by apply strip_whitespace_only.
Qed.

Lemma context_of_nonempty text : strip text ≠ [] → context_of text ≠ [].
Proof.
  intros Hne Hnil.
  pose proof (context_of_words text) as Hw. rewrite Hnil in Hw.
  unfold last_n in Hw. symmetry in Hw.
  apply (f_equal length) in Hw. rewrite length_drop in Hw. simpl in Hw.
  destruct (split text) as [|w ws] eqn:Hsplit.
  - by apply split_nil in Hsplit.
  - simpl in Hw. unfold context_of in Hnil. rewrite split_strip, Hsplit in Hnil.
    destruct (6 <? length (w :: ws))%nat eqn:Hlen; [|done].
    apply Nat.ltb_lt in Hlen. simpl in Hlen. lia.
Qed.

(** With the model loaded, a text that wants predictions causes exactly
    one model call, and its prompt is not empty. *)
Theorem predict_calls_model_once (lower : str → str) (g : model) (text : str) :
  should_predict text = true →
  ∃ prompt, prompts (predict lower (Some g) text).1 = [prompt] ∧
            prompt ≠ [] ∧ split prompt = last_n 6 (split text).
Proof.
  intros Hsp. exists (context_of text).
  assert (Hne : strip text ≠ []).
  { apply should_predict_last in Hsp as (c & Hlast & _).
    intros Hnil. by rewrite Hnil in Hlast. }
  assert (Htext : text ≠ []) by (intros Hnil; by rewrite Hnil in Hne).
  unfold predict. rewrite Hsp.
  rewrite bool_decide_eq_true_2 by eauto. cbn [andb].
  rewrite (generate_predictions_run lower g text Htext).
  split_and!.
  - by destruct (g (context_of text)).
  - by apply context_of_nonempty.
  - apply context_of_words.
Qed.

Lemma predict_calls_model_once_witness :
  ∃ prompt, prompts (predict ascii_lower (Some demo_model) (U "आज मौसम")).1 = [prompt] ∧
            prompt ≠ [] ∧ split prompt = last_n 6 (split (U "आज मौसम")).
Proof.
  apply (predict_calls_model_once ascii_lower demo_model (U "आज मौसम")).
  vm_compute. reflexivity.
Defined.

(** ** Cleaned tokens are pieces of the input *)

Lemma occurs_in_nil s : occurs_in [] s.
Proof. by exists [], s. Qed.

Lemma occurs_in_trans a b c : occurs_in a b → occurs_in b c → occurs_in a c.
Proof.
  intros (p1 & q1 & ->) (p2 & q2 & ->).
  exists (p2 ++ p1), (q1 ++ q2). by rewrite <- !app_assoc.
Qed.

Lemma occurs_in_Forall (P : Z → Prop) a b :
  occurs_in a b → Forall P b → Forall P a.
Proof.
  intros (pre & post & ->) H.
  apply Forall_app in H as [_ H]. by apply Forall_app in H as [H _].
Qed.

Lemma trim_occurs p q s : occurs_in (drop_trailing q (drop_leading p s)) s.
Proof.
  destruct (drop_leading_suffix p s) as [k Hk].
  destruct (drop_trailing_prefix q (drop_leading p s)) as [k' Hk'].
  exists k, k'. by rewrite <- Hk', <- Hk.
Qed.

Lemma clean_suggestion_occurs_in text : occurs_in (clean_suggestion text) text.
Proof.
  destruct (clean_suggestion_kept text) as [->|(-> & _ & _)];
    [apply occurs_in_nil|].
  eapply occurs_in_trans; apply trim_occurs.
Qed.

(** The cleaned token is a contiguous piece of the token it was made
    from: cleaning only removes characters at the two ends, or everything. *)
Theorem clean_suggestion_is_piece (text : str) :
  ∃ pre post, text = pre ++ clean_suggestion text ++ post.
Proof. apply clean_suggestion_occurs_in. Qed.

Lemma head_starts_clear p s c : starts_clear p s → head s = Some c → p c = false.
Proof. destruct s; simpl; [done|]. by intros ? [= <-]. Qed.

(** A token that survives cleaning begins and ends with a character of
    the kept classes (the Devanagari block, a Latin letter or an ASCII
    digit): no whitespace or ASCII punctuation is left at either end. *)
Theorem clean_suggestion_ends_kept (text : str) (c : Z) :
  head (clean_suggestion text) = Some c ∨ last (clean_suggestion text) = Some c →
  head_class c = true.
Proof.
  destruct (clean_suggestion_kept text) as [->|(-> & _ & _)].
  { by intros [?|?]. }
  intros [Hc|Hc].
  - apply (head_starts_clear _ _ _ (re_sub_ends_starts _)) in Hc.
    by apply negb_false_iff in Hc.
  - pose proof (re_sub_ends_ends (strip text)) as He.
    unfold ends_clear in He. rewrite Hc in He.
    apply negb_false_iff in He. by rewrite tail_class_head_class in He.
Qed.

Lemma clean_suggestion_ends_kept_witness :
  last (clean_suggestion (U "...अच्छा,")) = Some 0x093E ∧ head_class 0x093E = true.
Proof.
  assert (H : last (clean_suggestion (U "...अच्छा,")) = Some 0x093E)
    by (vm_compute; reflexivity).
  split; [exact H|].
  apply (clean_suggestion_ends_kept (U "...अच्छा,") 0x093E). by right.
Defined.

Lemma clean_suggestion_word w :
  is_word w → clean_suggestion w ≠ [] → is_word (clean_suggestion w).
Proof.
  intros [_ Hw] Hne. split; [done|].
  eapply occurs_in_Forall; [apply clean_suggestion_occurs_in | done].
Qed.

(** ** What [extract_suggestions] returns *)

Lemma keep_unseen_NoDup key seen tokens :
  NoDup (key <$> keep_unseen key seen tokens) ∧
  ∀ x, x ∈ keep_unseen key seen tokens → key x ∉ seen.
Proof.
  revert seen. induction tokens as [|t tokens IH]; intros seen; simpl.
  - split; [apply NoDup_nil_2 | by intros x ?%elem_of_nil].
  - destruct (decide (key t ∈ seen)) as [Hin|Hout].
    + rewrite (bool_decide_eq_true_2 _ Hin). apply IH.
    + rewrite (bool_decide_eq_false_2 _ Hout).
      destruct (IH (key t :: seen)) as [Hnd Hfresh]. split.
      * rewrite fmap_cons. apply NoDup_cons. split; [|done].
        intros (x & Hx & Hin)%list_elem_of_fmap.
        apply (Hfresh x Hin). rewrite <- Hx. by left.
      * intros x [->|Hx]%elem_of_cons; [done|].
        intros Hin. apply (Hfresh x Hx). by right.
Qed.

Lemma extract_suggestions_from_word generated_text context s :
  s ∈ extract_suggestions generated_text context →
  ∃ w, is_word w ∧ s = clean_suggestion w ∧ s ≠ [].
Proof.
  rewrite extract_suggestions_tokens. intros Hs.
  apply subseteq_take, keep_unseen_subseteq in Hs.
  unfold cleaned_tokens in Hs.
  destruct (length generated_text <=? length context)%nat;
    [by apply elem_of_nil in Hs|].
  apply list_elem_of_filter in Hs as [Hne Hs].
  apply list_elem_of_fmap in Hs as (w & -> & Hw).
  exists w. split_and!; [|done..].
  apply subseteq_take in Hw.
  exact (proj1 (Forall_forall is_word _) (split_words _) w Hw).
Qed.

(** [extract_suggestions] returns at most four tokens, all different,
    each of them a single word without whitespace that cleaning leaves
    unchanged. *)
Theorem extract_suggestions_clean_words (generated_text original_text : str) :
  (length (extract_suggestions generated_text original_text) ≤ 4)%nat ∧
  NoDup (extract_suggestions generated_text original_text) ∧
  Forall (λ s, is_word s ∧ clean_suggestion s = s)
         (extract_suggestions generated_text original_text).
Proof.
  split_and!.
  - rewrite extract_suggestions_tokens, length_take. unfold N_SUGGESTIONS. lia.
  - rewrite extract_suggestions_tokens.
    eapply sublist_NoDup; [|apply sublist_take].
    rewrite <- (list_fmap_id (keep_unseen _ _ _)). apply keep_unseen_NoDup.
  - apply Forall_forall. intros s Hs.
    apply extract_suggestions_from_word in Hs as (w & Hw & -> & Hne).
    split; [by apply clean_suggestion_word|by apply clean_suggestion_fixed].
Qed.

(** ** More on the final filter: order and completeness *)

Section FilterOrder.

Variable lower : str → str.
Variable text : str.

Lemma filter_step_cases st s :
  filter_step lower text st s = st ∨
  (filter_step lower text st s = (st.1 ++ [s], {[lower s]} ∪ st.2)).
Proof.
  destruct st as [unique seen]. unfold filter_step.
  destruct (_ && _ && _ && _); auto.
Qed.

Lemma foldl_filter_sublist l st :
  ∃ k, (foldl (filter_step lower text) st l).1 = st.1 ++ k ∧ k `sublist_of` l.
Proof.
  revert st. induction l as [|s l IH]; intros st; simpl.
  - exists []. by rewrite app_nil_r.
  - destruct (IH (filter_step lower text st s)) as (k & Hk & Hsub).
    rewrite Hk. destruct (filter_step_cases st s) as [->| ->].
    + exists k. split; [done|]. by apply sublist_cons.
    + exists (s :: k). simpl. split; [by rewrite <- app_assoc|].
      by apply sublist_skip.
Qed.

Lemma unique_of_sublist all_suggestions :
  unique_of lower text all_suggestions `sublist_of` all_suggestions.
Proof.
  unfold unique_of.
  destruct (foldl_filter_sublist all_suggestions ([], ∅)) as (k & -> & Hk).
  done.
Qed.

Lemma filter_step_seen st s :
  st.2 ⊆ (filter_step lower text st s).2 ∧
  (s ≠ [] → contains text s = false → (2 ≤ length s)%nat →
   lower s ∈ (filter_step lower text st s).2).
Proof.
  destruct st as [unique seen]. unfold filter_step. split.
  - destruct (_ && _ && _ && _); simpl; set_solver.
  - intros Hne Hc Hlen. rewrite Hc. apply Nat.leb_le in Hlen. rewrite Hlen.
    destruct s as [|c s]; [done|]. cbn [truthy negb andb].
    rewrite andb_true_r.
    destruct (decide (lower (c :: s) ∈ seen)) as [Hin|Hout].
    + by rewrite (bool_decide_eq_true_2 _ Hin).
    + rewrite (bool_decide_eq_false_2 _ Hout). simpl. set_solver.
Qed.

Lemma foldl_filter_seen l st :
  st.2 ⊆ (foldl (filter_step lower text) st l).2 ∧
  ∀ x, x ∈ l → x ≠ [] → contains text x = false → (2 ≤ length x)%nat →
       lower x ∈ (foldl (filter_step lower text) st l).2.
Proof.
  revert st. induction l as [|s l IH]; intros st; simpl.
  - split; [done|]. by intros x ?%elem_of_nil.
  - destruct (IH (filter_step lower text st s)) as [Hmono Hall].
    destruct (filter_step_seen st s) as [Hstep Hs]. split.
    + by etrans.
    + intros x [->|Hx]%elem_of_cons Hne Hc Hlen; [|by apply Hall].
      apply Hmono. by apply Hs.
Qed.

Lemma unique_of_complete all_suggestions s :
  s ∈ all_suggestions → s ≠ [] → contains text s = false → (2 ≤ length s)%nat →
  lower s ∈ lower <$> unique_of lower text all_suggestions.
Proof.
  intros Hin Hne Hc Hlen. unfold unique_of.
  destruct (foldl_filter_inv lower text all_suggestions all_suggestions ([], ∅))
    as (Hseen & _ & _); [done| |].
  { split_and!; simpl; [|apply NoDup_nil_2|done].
    intros k. by rewrite elem_of_empty, elem_of_nil. }
  apply Hseen. by apply (foldl_filter_seen all_suggestions ([], ∅)).
Qed.

End FilterOrder.

Lemma collect_words results context s :
  s ∈ collect results context →
  is_word s ∧ clean_suggestion s = s ∧ (2 ≤ length s)%nat.
Proof.
  rewrite collect_concat. intros Hs.
  apply elem_of_concat in Hs as (l & Hs & Hl).
  apply list_elem_of_fmap in Hl as (r & -> & _).
  apply extract_suggestions_from_word in Hs as (w & Hw & -> & Hne).
  split_and!.
  - by apply clean_suggestion_word.
  - by apply clean_suggestion_fixed.
  - by destruct (clean_suggestion_kept w) as [?|(_ & _ & ?)].
Qed.

(** ** More on what [predict] returns *)

(** Every suggestion is one word: it has no whitespace, so splitting it
    gives the suggestion itself, and cleaning it again changes nothing. *)
Theorem predict_suggestions_single_words
    (lower : str → str) (generator : option model) (b : str) :
  ∃ l, (predict lower generator b).2 = Ok l ∧
       Forall (λ s, split s = [s] ∧ clean_suggestion s = s) l.
Proof.
  destruct (predict_returns lower generator b)
    as (l & Hl & [->|(results & context & ->)]);
    eexists; (split; [exact Hl|]); [done|].
  apply Forall_take.
  eapply Forall_impl; [apply (unique_of_inv lower b (collect results context))|].
  intros s (_ & _ & Hin). apply collect_words in Hin as (Hw & Hfix & _).
  split; [by apply split_word|done].
Qed.

(** No suggestion is one of the words already in the buffer. *)
Theorem predict_never_a_buffer_word
    (lower : str → str) (generator : option model) (b : str) :
  ∃ l, (predict lower generator b).2 = Ok l ∧ Forall (λ s, s ∉ split b) l.
Proof.
  destruct (predict_returns lower generator b)
    as (l & Hl & [->|(results & context & ->)]);
    eexists; (split; [exact Hl|]); [done|].
  apply Forall_take.
  eapply Forall_impl; [apply (unique_of_inv lower b (collect results context))|].
  intros s (Hc & _ & _) Hin.
  apply split_occurs, contains_occurs in Hin. congruence.
Qed.

(** The suggestions come in the order in which the continuations offered
    them: the returned list is a subsequence of the lists extracted from
    the model's continuations, put one after the other. *)
Theorem suggestions_keep_candidate_order
    (lower : str → str) (g : model) (text : str) (results : list str) :
  text ≠ [] →
  g (context_of text) = Ok results →
  ∃ l, (generate_predictions lower (Some g) text).2 = Ok l ∧
       l `sublist_of`
         concat ((λ r, extract_suggestions r (context_of text)) <$> results).
Proof.
  intros Hne Hg. rewrite (generate_predictions_run lower g text Hne), Hg.
  eexists. split; [done|]. rewrite <- collect_concat.
  etrans; [apply sublist_take | apply unique_of_sublist].
Qed.

Lemma suggestions_keep_candidate_order_witness :
  ∃ l, (generate_predictions ascii_lower (Some demo_model) (U "आज मौसम")).2 = Ok l ∧
       l `sublist_of`
         concat ((λ r, extract_suggestions r (context_of (U "आज मौसम")))
                 <$> [U "आज मौसम अच्छा है। और"; U "आज मौसम Accha अच्छा accha";
                      U "आज मौसम बहुत"]).
Proof.
  apply (suggestions_keep_candidate_order ascii_lower demo_model (U "आज मौसम")).
  - done.
  - vm_compute. reflexivity.
Defined.

(** Nothing eligible is lost: when fewer than four suggestions come back,
    every token extracted from a continuation that does not occur in the
    text is among them, up to letter case. *)
Theorem suggestions_complete_below_cap
    (lower : str → str) (g : model) (text : str) (results : list str)
    (r s : str) :
  text ≠ [] →
  g (context_of text) = Ok results →
  r ∈ results →
  s ∈ extract_suggestions r (context_of text) →
  ¬ occurs_in s text →
  ∃ l, (generate_predictions lower (Some g) text).2 = Ok l ∧
       (length l = 4%nat ∨ ∃ s', s' ∈ l ∧ lower s' = lower s).
Proof.
  intros Hne Hg Hr Hs Hocc.
  rewrite (generate_predictions_run lower g text Hne), Hg.
  eexists. split; [done|].
  set (all := collect results (context_of text)).
  assert (Hin : s ∈ all).
  { unfold all. rewrite collect_concat. apply elem_of_concat.
    exists (extract_suggestions r (context_of text)). split; [exact Hs|].
    exact (list_elem_of_fmap_2
             (λ g0, extract_suggestions g0 (context_of text)) _ r Hr). }
  destruct (decide (4 ≤ length (unique_of lower text all))%nat) as [Hfull|Hfew].
  - left. rewrite length_take. unfold N_SUGGESTIONS. lia.
  - right. rewrite take_ge by (unfold N_SUGGESTIONS; lia).
    destruct (collect_words _ _ _ Hin) as ([Hnil _] & _ & Hlen).
    assert (Hc : contains text s = false).
    { destruct (contains text s) eqn:Hc; [|done].
      by apply contains_occurs in Hc. }
    pose proof (unique_of_complete lower text all s Hin Hnil Hc Hlen) as Hk.
    apply list_elem_of_fmap in Hk as (s' & Heq & Hs'). eauto.
Qed.

Lemma suggestions_complete_below_cap_witness :
  ∃ l, (generate_predictions ascii_lower (Some danda_model) (U "आज")).2 = Ok l ∧
       (length l = 4%nat ∨ ∃ s', s' ∈ l ∧ ascii_lower s' = ascii_lower (U "है")).
Proof.
  apply (suggestions_complete_below_cap ascii_lower danda_model (U "आज")
           [U "आज ।। १२ है"] (U "आज ।। १२ है") (U "है")).
  - done.
  - vm_compute. reflexivity.
  - apply list_elem_of_here.
  - vm_compute. do 2 apply list_elem_of_further. apply list_elem_of_here.
  - intros Hc. apply contains_occurs in Hc. vm_compute in Hc. discriminate.
Defined.

(** ** More facts about trimming and joining *)

Lemma drop_leading_app p s t :
  forallb p s = false → drop_leading p (s ++ t) = drop_leading p s ++ t.
Proof.
  induction s as [|c s IH]; simpl; [done|].
  destruct (p c); simpl; [exact IH|done].
Qed.

Lemma drop_trailing_snoc p s c :
  p c = true → drop_trailing p (s ++ [c]) = drop_trailing p s.
Proof.
  intros Hc. induction s as [|d s IH].
  - simpl. by rewrite Hc.
  - change ((d :: s) ++ [c]) with (d :: (s ++ [c])). cbn [drop_trailing].
    replace (forallb p (d :: s ++ [c])) with (forallb p (d :: s)).
    + by rewrite IH.
    + simpl. rewrite forallb_app. simpl. by rewrite Hc, !andb_true_r.
Qed.

Lemma strip_snoc_space s c : isspace c = true → strip (s ++ [c]) = strip s.
Proof.
  intros Hc. destruct (forallb isspace s) eqn:Hs.
  - rewrite (strip_whitespace_only s Hs). apply strip_whitespace_only.
    rewrite forallb_app. simpl. by rewrite Hs, Hc.
  - unfold strip. rewrite drop_leading_app by done.
    by apply drop_trailing_snoc.
Qed.

Lemma last_drop_leading p s c :
  last s = Some c → p c = false → last (drop_leading p s) = Some c.
Proof.
  intros Hlast Hc. induction s as [|d s IH]; [done|].
  simpl. destruct (p d) eqn:Hd; [|done].
  apply IH. rewrite last_cons in Hlast.
  destruct (last s); [done|]. congruence.
Qed.

Lemma last_strip s c :
  last s = Some c → isspace c = false → last (strip s) = Some c.
Proof.
  intros Hlast Hc. unfold strip.
  pose proof (last_drop_leading isspace s c Hlast Hc) as Hl.
  rewrite drop_trailing_id; [done|]. unfold ends_clear. by rewrite Hl.
Qed.

Lemma join_snoc sep ws (w : str) :
  ws ≠ [] → join sep (ws ++ [w]) = join sep ws ++ sep ++ w.
Proof.
  induction ws as [|a ws IH]; [done|]. intros _.
  destruct ws as [|b ws]; [done|].
  change (join sep ((a :: b :: ws) ++ [w]))
    with (a ++ sep ++ join sep ((b :: ws) ++ [w])).
  rewrite IH by done.
  change (join sep (a :: b :: ws)) with (a ++ sep ++ join sep (b :: ws)).
  by rewrite <- !app_assoc.
Qed.

Lemma is_word_ends w :
  is_word w → starts_clear isspace w ∧ ends_clear isspace w.
Proof.
  intros [Hne Hw]. split.
  - destruct w; [done|]. by apply Forall_cons in Hw as [? _].
  - unfold ends_clear. destruct (last w) as [c|] eqn:Hl; [|done].
    apply last_Some in Hl as [k ->].
    apply (proj1 (Forall_forall _ _) Hw c).
    apply elem_of_app. right. apply list_elem_of_here.
Qed.

Lemma join_words_ends ws :
  ws ≠ [] → Forall is_word ws →
  join (U " ") ws ≠ [] ∧
  starts_clear isspace (join (U " ") ws) ∧ ends_clear isspace (join (U " ") ws).
Proof.
  intros Hne Hws. induction Hws as [|w ws Hw Hws IH]; [done|].
  destruct (is_word_ends w Hw) as [Hstart Hend]. destruct Hw as [Hwne Hw].
  destruct ws as [|w' ws]; [done|].
  destruct IH as (Hjne & _ & Hjend); [done|].
  change (join (U " ") (w :: w' :: ws))
    with (w ++ 32 :: join (U " ") (w' :: ws)).
  split_and!.
  - by destruct w.
  - by destruct w.
  - unfold ends_clear in *. rewrite last_app, last_cons.
    destruct (last (join (U " ") (w' :: ws))) eqn:Hl; [done|].
    by apply last_None in Hl.
Qed.

Lemma strip_join_words ws :
  Forall is_word ws → strip (join (U " ") ws) = join (U " ") ws.
Proof.
  intros Hws. destruct ws as [|w ws]; [done|].
  destruct (join_words_ends (w :: ws)) as (_ & ? & ?); [done..|].
  by apply strip_id.
Qed.

(** ** Accepting, undoing, ending a sentence *)

Lemma accept_trimmed b s :
  accept b s = if truthy (strip b) then strip b ++ U " " ++ s else s.
Proof.
  unfold accept. rewrite strip_no_trailing_space.
  by destruct (truthy (strip b)).
Qed.

Lemma accept_split b s : split (accept b s) = split b ++ split s.
Proof.
  rewrite accept_trimmed. destruct (strip b) as [|c k] eqn:Hb; cbn [truthy].
  - assert (split b = []) as ->; [|done].
    rewrite <- split_strip, Hb. done.
  - change (U " " ++ s) with (32 :: s).
    rewrite split_app_space by done. by rewrite <- Hb, split_strip.
Qed.

Lemma undo_split t :
  split (undo_last_word t) = take (length (split t) - 1) (split t).
Proof.
  unfold undo_last_word. rewrite split_strip.
  destruct (split t) as [|w ws] eqn:Hsplit; cbn [truthy].
  { by rewrite Hsplit. }
  assert (Hwords : Forall is_word (take (length (w :: ws) - 1) (w :: ws))).
  { apply Forall_take. rewrite <- Hsplit. apply split_words. }
  destruct (take (length (w :: ws) - 1) (w :: ws)) as [|v vs] eqn:Htake.
  - reflexivity.
  - cbn [truthy]. rewrite split_snoc_space. by apply split_join.
Qed.

(** Accepting a suggestion appends its words to the words of the buffer
    and changes none of them. *)
Theorem accept_appends_words (b s : str) :
  split (accept b s) = split b ++ split s.
Proof. apply accept_split. Qed.

(** The previous word button removes the last word and keeps the others;
    a text without words has none to remove. *)
Theorem undo_removes_last_word (t : str) :
  split (undo_last_word t) = take (length (split t) - 1) (split t).
Proof. apply undo_split. Qed.

(** Undo takes back an accepted one-word suggestion: the buffer has its
    former words again. *)
Theorem undo_after_accept (b s : str) :
  is_word s → split (undo_last_word (accept b s)) = split b.
Proof.
  intros Hs. rewrite undo_split, accept_split, (split_word s Hs).
  rewrite length_app. simpl.
  replace (length (split b) + 1 - 1)%nat with (length (split b)) by lia.
  by rewrite take_app_length.
Qed.

Lemma undo_after_accept_witness :
  split (undo_last_word (accept (U "आज  मौसम ") (U "अच्छा"))) = split (U "आज  मौसम ").
Proof.
  apply undo_after_accept. split; [done|]. vm_compute.
  repeat constructor.
Defined.

(** Undo followed by accepting a suggestion replaces the last word: the
    new text is the remaining words and the suggestion, joined by single
    spaces. *)
Theorem accept_after_undo_replaces_last_word (t s : str) :
  split t ≠ [] →
  accept (undo_last_word t) s =
  join (U " ") (take (length (split t) - 1) (split t) ++ [s]).
Proof.
  intros Hne. rewrite accept_trimmed. unfold undo_last_word.
  rewrite split_strip.
  destruct (split t) as [|w ws] eqn:Hsplit; [done|]. cbn [truthy].
  assert (Hwords : Forall is_word (take (length (w :: ws) - 1) (w :: ws))).
  { apply Forall_take. rewrite <- Hsplit. apply split_words. }
  destruct (take (length (w :: ws) - 1) (w :: ws)) as [|v vs] eqn:Htake.
  - reflexivity.
  - cbn [truthy].
    change (U " ") with [32]. rewrite strip_snoc_space by done.
    rewrite (strip_join_words _ Hwords
               : strip (join [32] (v :: vs)) = join [32] (v :: vs)).
    destruct (join_words_ends (v :: vs)) as (Hjne & _ & _); [done..|].
    change (U " ") with [32] in Hjne.
    rewrite join_snoc by done.
    by destruct (join [32] (v :: vs)).
Qed.

Lemma accept_after_undo_replaces_last_word_witness :
  accept (undo_last_word (U " आज  मौसम अच्चा ")) (U "अच्छा") = U "आज मौसम अच्छा".
Proof.
  rewrite accept_after_undo_replaces_last_word.
  - vm_compute. reflexivity.
  - vm_compute. discriminate.
Defined.

(** ** The full stop button *)

Lemma should_predict_false_terminated text c :
  last (strip text) = Some c → is_terminator c = true →
  should_predict text = false.
Proof.
  intros Hlast Hc. destruct (should_predict text) eqn:Hsp; [|done].
  apply should_predict_last in Hsp as (c' & Hlast' & Hc'). congruence.
Qed.

Lemma full_stop_not_predictable t : should_predict (full_stop t) = false.
Proof.
  unfold full_stop. destruct t as [|a t]; [reflexivity|]. cbn [truthy andb].
  set (s := a :: t). change (U "।") with [danda].
  destruct (endswith s [danda]) eqn:Hend; cbn [negb].
  - apply (should_predict_false_terminated _ danda); [|done].
    apply bool_decide_eq_true in Hend as [k ->].
    apply last_strip; [apply last_snoc|done].
  - change (U "। ") with [danda; 32].
    apply (should_predict_false_terminated _ danda); [|done].
    change (s ++ [danda; 32]) with (s ++ [danda] ++ [32]).
    rewrite app_assoc, strip_snoc_space by done.
    apply last_strip; [apply last_snoc|done].
Qed.

(** After the full stop button no prediction is made, whatever the text
    was: the model is not called and nothing is offered. *)
Theorem full_stop_suppresses_prediction
    (lower : str → str) (generator : option model) (t : str) :
  should_predict (full_stop t) = false ∧
  predict lower generator (full_stop t) = ([], Ok []).
Proof.
  split; [apply full_stop_not_predictable|].
  unfold predict. by rewrite full_stop_not_predictable.
Qed.

(** The button's own output ends with a space, not with the danda its
    guard looks for: pressing it twice in a row puts two full stops. *)
Theorem full_stop_twice (t : str) :
  t ≠ [] → endswith t (U "।") = false →
  full_stop (full_stop t) = t ++ U "। । ".
Proof.
  intros Hne Hend. unfold full_stop at 2. rewrite Hend.
  destruct t as [|a t]; [done|]. cbn [truthy andb negb].
  set (s := a :: t). unfold full_stop.
  change (U "। ") with [danda; 32]. change (U "।") with [danda].
  change (s ++ [danda; 32]) with (s ++ [danda] ++ [32]).
  rewrite app_assoc, endswith_snoc.
  replace (truthy ((s ++ [danda]) ++ [32])) with true by (by destruct s).
  simpl. by rewrite <- !app_assoc.
Qed.

Lemma full_stop_twice_witness :
  full_stop (full_stop (U "आज मौसम")) = U "आज मौसम। । ".
Proof.
  rewrite full_stop_twice; [vm_compute; reflexivity|done|].
  vm_compute. reflexivity.
Defined.

(** ** Accepting a suggestion and predicting again *)

Lemma last_accept_word b s c :
  is_word s → last s = Some c → last (strip (accept b s)) = Some c.
Proof.
  intros Hs Hlast. destruct (is_word_ends s Hs) as [_ Hend].
  unfold ends_clear in Hend. rewrite Hlast in Hend.
  apply last_strip; [|done].
  rewrite accept_trimmed. destruct (truthy (strip b)); [|done].
  by rewrite !last_app, Hlast.
Qed.

(** After a one-word suggestion is accepted, predictions go on exactly
    when the suggestion does not end with a terminator. *)
Theorem accept_then_predict (b s : str) :
  is_word s →
  (should_predict (accept b s) = true ↔
   ∃ c, last s = Some c ∧ is_terminator c = false).
Proof.
  intros Hs. rewrite should_predict_last.
  destruct (last s) as [c|] eqn:Hlast.
  - rewrite (last_accept_word b s c Hs Hlast). done.
  - apply last_None in Hlast. by destruct Hs.
Qed.

Lemma accept_then_predict_witness :
  should_predict (accept (U "आज मौसम") (U "अच्छा")) = true ↔
  ∃ c, last (U "अच्छा") = Some c ∧ is_terminator c = false.
Proof.
  apply accept_then_predict. split; [done|]. vm_compute. repeat constructor.
Defined.

(** ** Loading the model *)

(** Loading never raises. A pipeline that was built becomes the generator
    and nothing is shown; a failure is shown once and leaves no generator,
    and then neither [generate_predictions] nor [predict] calls a model or
    shows anything, for any text. *)
Theorem load_failure_disables_prediction
    (pipeline : outcome model) (lower : str → str) (text : str) :
  ∃ generator,
    (load_hindi_model pipeline).2 = Ok generator ∧
    match pipeline with
    | Ok m => generator = Some m ∧ (load_hindi_model pipeline).1 = []
    | Raised e =>
        generator = None ∧
        (load_hindi_model pipeline).1 = [StError (load_problem ++ e)] ∧
        generate_predictions lower generator text = ([], Ok []) ∧
        predict lower generator text = ([], Ok [])
    end.
Proof.
  destruct pipeline as [m|e].
  - by exists (Some m).
  - exists None. split_and!; [done..| |].
    + reflexivity.
    + unfold predict. by rewrite andb_false_r.
Qed.

(** ** The history panel *)

Lemma shown_history_snoc history s :
  shown_history (history ++ [s]) = s :: take 9 (shown_history history).
Proof.
  unfold shown_history, last_n. rewrite take_reverse, drop_drop.
  rewrite length_app, length_drop. change (length [s]) with 1%nat.
  rewrite drop_app_le by lia. rewrite reverse_snoc.
  do 3 f_equal. lia.
Qed.

(** The panel shows at most ten suggestions, the latest first: accepting
    a suggestion puts it in front and keeps the nine before it. *)
Theorem history_shows_latest_first (st : session) (s : str) :
  shown_history (suggestion_history (on_suggestion st s)) =
    s :: take 9 (shown_history (suggestion_history st)) ∧
  (length (shown_history (suggestion_history (on_suggestion st s))) ≤ 10)%nat.
Proof.
  simpl. rewrite shown_history_snoc. split; [done|].
  simpl. rewrite length_take. lia.
Qed.

(** ** Sentences *)

Lemma re_split_from_pieces cur in_run s :
  Forall (λ c, is_terminator c = false) cur →
  Forall (Forall (λ c, is_terminator c = false)) (re_split_from cur in_run s).
Proof.
  revert cur in_run. induction s as [|c s IH]; intros cur in_run Hcur; simpl.
  - apply Forall_singleton. by apply Forall_reverse.
  - destruct (is_terminator c) eqn:Hc.
    + destruct in_run; [by apply IH|].
      apply Forall_cons. split; [by apply Forall_reverse|by apply IH].
    + apply IH. by apply Forall_cons.
Qed.

(** Every sentence of the analysis panel is non-empty, has no whitespace
    at either end and contains none of the terminators; the sentence
    metric is the number of these sentences. *)
Theorem sentences_well_formed (text : str) :
  Forall (λ s, s ≠ [] ∧ strip s = s ∧ Forall (λ c, is_terminator c = false) s)
         (sentences text) ∧
  length (sentences text) = sentence_count text.
Proof.
  unfold sentences, sentence_count. split; [|apply length_fmap].
  apply Forall_fmap, Forall_forall. intros piece Hin.
  apply list_elem_of_filter in Hin as [Hne Hin]. simpl. split_and!.
  - done.
  - apply strip_strip.
  - eapply occurs_in_Forall; [apply trim_occurs|].
    exact (proj1 (Forall_forall _ _)
             (re_split_from_pieces [] false text (Forall_nil_2 _)) piece Hin).
Qed.





Lemma re_split_from_plain cur in_run s :
  Forall (λ c, is_terminator c = false) s →
  s ≠ [] ∨ in_run = false →
  re_split_from cur in_run s = [reverse cur ++ s].
Proof.
  intros Hs. revert cur in_run.
  induction Hs as [|c s Hc Hs IH]; intros cur in_run Hne; simpl.
  - destruct Hne as [?|?]; [done|]. by rewrite app_nil_r.
  - rewrite Hc, IH by auto. by rewrite reverse_cons, <- app_assoc.
Qed.

(** A text without terminators is one sentence, its trimmed form, unless
    it is blank. *)
Theorem sentences_without_terminator (text : str) :
  Forall (λ c, is_terminator c = false) text →
  sentences text = if decide (strip text = []) then [] else [strip text].
Proof.
  intros Hplain. unfold sentences, re_split_terminators.
  rewrite (re_split_from_plain [] false text Hplain) by auto.
  change (reverse [] ++ text) with text.
  destruct (decide (strip text = [])) as [Hnil|Hne].
  - by rewrite filter_cons_False by (intros H; by apply H).
  - by rewrite filter_cons_True by done.
Qed.

Lemma sentences_without_terminator_witness :
  sentences (U "  आज मौसम ") = [U "आज मौसम"].
Proof.
  rewrite sentences_without_terminator; [vm_compute; reflexivity|].
  vm_compute. repeat constructor.
Defined.

(** ** The helpers never raise on strings *)

Example clean_suggestion_none : Py.clean_suggestion Py.VNone = Ok [].
Proof. reflexivity. Qed.

Example clean_suggestion_int_raises :
  Py.clean_suggestion (Py.VInt 5) = Raised (U "'int' object has no attribute 'strip'").
Proof. vm_compute. reflexivity. Qed.

Example extract_suggestions_none_raises :
  Py.extract_suggestions (Py.VStr (U "आज अच्छा")) Py.VNone =
  Raised (U "object of type 'NoneType' has no len()").
Proof. vm_compute. reflexivity. Qed.

Example extract_suggestions_empty_none :
  Py.extract_suggestions (Py.VStr []) Py.VNone = Ok [].
Proof. reflexivity. Qed.

Lemma clean_suggestion_returns text :
  Py.clean_suggestion (Py.VStr text) = Ok (clean_suggestion text).
Proof.
  unfold Py.clean_suggestion, clean_suggestion. cbn [Py.truth].
  destruct (truthy text); [|done]. cbn [negb Py.strip mbind outcome_bind].
  destruct (re_search_letter (re_sub_ends (strip text))); [|done].
  cbn [negb]. by destruct (length (re_sub_ends (strip text)) <? 2)%nat.
Qed.

Lemma extract_step_returns suggestions word :
  Py.extract_step suggestions word = Ok (extract_step suggestions word).
Proof.
  unfold Py.extract_step. by rewrite clean_suggestion_returns.
Qed.

Lemma extract_loop_returns words : ∀ suggestions,
  Py.for_each Py.extract_step suggestions words =
  Ok (foldl extract_step suggestions words).
Proof.
  induction words as [|w words IH]; intros suggestions; [done|].
  cbn [Py.for_each foldl]. rewrite extract_step_returns.
  cbn [mbind outcome_bind]. apply IH.
Qed.

Lemma extract_suggestions_returns generated original :
  Py.extract_suggestions (Py.VStr generated) (Py.VStr original) =
  Ok (extract_suggestions generated original).
Proof.
  unfold Py.extract_suggestions, Py.nothing_new, extract_suggestions.
  cbn [Py.truth Py.len].
  destruct (truthy generated); cbn [negb orb mbind outcome_bind]; [|done].
  destruct (length generated <=? length original)%nat; [done|].
  cbn [Py.slice_from Py.strip mbind outcome_bind].
  destruct (strip (drop (length original) generated)) as [|c rest] eqn:Hnew;
    [done|].
  cbn [truthy negb]. by rewrite extract_loop_returns.
Qed.

Lemma existsb_occurs_in (f : Z → bool) a b :
  occurs_in a b → existsb f a = true → existsb f b = true.
Proof.
  intros (pre & post & ->) Ha.
  rewrite !existsb_app, Ha. by rewrite orb_true_r.
Qed.

Lemma clean_suggestion_no_letter text :
  re_search_letter text = false → clean_suggestion text = [].
Proof.
  intros Hnone.
  destruct (clean_suggestion_kept text) as [?|(_ & Hletter & _)]; [done|].
  apply (existsb_occurs_in _ _ text) in Hletter;
    [|apply clean_suggestion_occurs_in].
  unfold re_search_letter in Hnone. congruence.
Qed.

(** C9: cleaning and extraction are total on strings. With every operation
    of the two bodies raising where Python raises, a call of
    [clean_suggestion] on a string returns a string and a call of
    [extract_suggestions] on two strings returns a list: neither raises,
    whatever the strings hold. The empty string cleans to the empty
    string, as does any string without a letter; extraction gives the
    empty list when the generated text is not longer than the original
    text and when nothing but whitespace follows the context. *)
Theorem cleaning_and_extraction_total :
  (∀ text : str,
      Py.clean_suggestion (Py.VStr text) = Ok (clean_suggestion text)) ∧
  (∀ generated original : str,
      Py.extract_suggestions (Py.VStr generated) (Py.VStr original) =
      Ok (extract_suggestions generated original)) ∧
  Py.clean_suggestion (Py.VStr []) = Ok [] ∧
  (∀ text : str,
      re_search_letter text = false →
      Py.clean_suggestion (Py.VStr text) = Ok []) ∧
  (∀ generated original : str,
      (length generated ≤ length original)%nat →
      Py.extract_suggestions (Py.VStr generated) (Py.VStr original) = Ok []) ∧
  (∀ generated original : str,
      strip (drop (length original) generated) = [] →
      Py.extract_suggestions (Py.VStr generated) (Py.VStr original) = Ok []).
Proof.
  split_and!.
  - apply clean_suggestion_returns.
  - apply extract_suggestions_returns.
  - reflexivity.
  - intros text Hnone.
    by rewrite clean_suggestion_returns, clean_suggestion_no_letter.
  - intros generated original Hlen. rewrite extract_suggestions_returns.
    f_equal. unfold extract_suggestions.
    apply Nat.leb_le in Hlen. rewrite Hlen. by rewrite orb_true_r.
  - intros generated original Hrest. rewrite extract_suggestions_returns.
    f_equal. unfold extract_suggestions.
    rewrite Hrest. simpl. by destruct (_ || _).
Qed.

Lemma cleaning_and_extraction_total_witness :
  Py.clean_suggestion (Py.VStr (U "12, ...")) = Ok [] ∧
  Py.extract_suggestions (Py.VStr (U "आज")) (Py.VStr (U "आज मौसम")) = Ok [] ∧
  Py.extract_suggestions (Py.VStr (U "आज   ")) (Py.VStr (U "आज")) = Ok [].
Proof.
  destruct cleaning_and_extraction_total
    as (_ & _ & _ & Hnone & Hshort & Hblank).
  split_and!.
  - apply Hnone. vm_compute. reflexivity.
  - apply Hshort. vm_compute. lia.
  - apply Hblank. vm_compute. reflexivity.
Defined.
